(** * A verification development of the Cineville visits report pipeline

    Shallow embedding of [backend/logic.py]: the two CSV loaders
    ([load_members], [load_visits]), the join and grouping
    ([validate_and_group_visits]), the aggregation ([build_summary],
    [print_top_members]) and the tabular writer ([write_output]).

    Modelling choices.
    - Python [str] values are [String.string] (ASCII).  Comparison of
      strings is [String.compare], the lexicographic order on character
      codes, which is what Python's [<] on [str] does.
    - A Python [dict] is an association list in insertion order: lookup
      returns the first binding, insertion of a new key appends at the end,
      and updating an existing key changes it in place.
    - A CSV row produced by [csv.DictReader] is a record of [option string]
      fields: [None] is a missing column.  [row.get(k) or ""] maps both
      [None] and [""] to [""].
    - [logging.warning] calls have no effect on the returned values and are
      not modelled; nor is the [generated_at] timestamp of the summary.
    - Writing to a file is modelled by the string written. *)

From Stdlib Require Import String Ascii List Bool ZArith Lia.
From Stdlib Require Import Permutation Sorted.
Import ListNotations.
Open Scope string_scope.

(* ------------------------------------------------------------------ *)
(** ** Python string helpers *)

Definition nl : string := String (ascii_of_nat 10) EmptyString.

(** [not s] for a Python string: truthiness is non-emptiness. *)
Definition is_empty (s : string) : bool :=
  match s with EmptyString => true | String _ _ => false end.

(** [str.isspace] on one ASCII character: [\t \n \v \f \r] (9..13),
    the separators [\x1c..\x1f] (28..31) and the space (32). *)
Definition is_space (c : ascii) : bool :=
  let n := nat_of_ascii c in
  ((9 <=? n) && (n <=? 13))%nat || ((28 <=? n) && (n <=? 32))%nat.

Fixpoint lstrip (s : string) : string :=
  match s with
  | EmptyString => EmptyString
  | String c s' => if is_space c then lstrip s' else s
  end.

Fixpoint rstrip (s : string) : string :=
  match s with
  | EmptyString => EmptyString
  | String c s' =>
      let r := rstrip s' in
      if is_space c && is_empty r then EmptyString else String c r
  end.

(** [str.strip()] with no argument. *)
Definition strip (s : string) : string := rstrip (lstrip s).

(** [x or ""] for a field read from a [csv.DictReader] row. *)
Definition or_empty (o : option string) : string :=
  match o with Some s => s | None => "" end.

(* ------------------------------------------------------------------ *)
(** ** Python dicts as insertion-ordered association lists *)

Module Dict.
Section Dict.
Context {K V : Type} (keqb : K -> K -> bool).

(** [d.get(k)] *)
Fixpoint get (k : K) (d : list (K * V)) : option V :=
  match d with
  | [] => None
  | (k', v) :: d' => if keqb k k' then Some v else get k d'
  end.

(** [k in d] *)
Definition mem (k : K) (d : list (K * V)) : bool :=
  match get k d with Some _ => true | None => false end.

(** [d[k] = f(d[k])] for an existing key, [d[k] = f(dflt)] appended at
    the end for a new one: the update of a [defaultdict]. *)
Fixpoint upd (k : K) (dflt : V) (f : V -> V) (d : list (K * V))
  : list (K * V) :=
  match d with
  | [] => [(k, f dflt)]
  | (k', v) :: d' =>
      if keqb k k' then (k', f v) :: d' else (k', v) :: upd k dflt f d'
  end.
End Dict.
End Dict.

Definition key_eqb (a b : string * string) : bool :=
  String.eqb (fst a) (fst b) && String.eqb (snd a) (snd b).

(* ------------------------------------------------------------------ *)
(** ** Python's [sorted] and slicing *)

Section Sort.
Context {A : Type} (lt : A -> A -> bool).

(** [sorted] is stable and only uses [<]: [x] goes before the first
    element that is not smaller than it. *)
Fixpoint insert (x : A) (l : list A) : list A :=
  match l with
  | [] => [x]
  | y :: l' => if lt y x then y :: insert x l' else x :: l
  end.

Fixpoint sorted (l : list A) : list A :=
  match l with
  | [] => []
  | x :: l' => insert x (sorted l')
  end.
End Sort.

(** [l[:n]] for a Python [int] [n]. *)
Definition slice_to {A} (n : Z) (l : list A) : list A :=
  if (0 <=? n)%Z then firstn (Z.to_nat n) l
  else firstn (length l - Z.to_nat (- n)) l.

(** Tuple [<] on [(str, str)] and on [(int, str)]: compare the first
    components that differ. *)
Definition str_pair_lt (a b : string * string) : bool :=
  if String.eqb (fst a) (fst b) then String.ltb (snd a) (snd b)
  else String.ltb (fst a) (fst b).

Definition int_str_lt (a b : Z * string) : bool :=
  if Z.eqb (fst a) (fst b) then String.ltb (snd a) (snd b)
  else Z.ltb (fst a) (fst b).

(* ------------------------------------------------------------------ *)
(** ** Data model *)

(** A row of [members.csv] as read by [csv.DictReader]. *)
Record MemberRow := { mr_member_id : option string; mr_barcode : option string }.

(** A row of [visits.csv] as read by [csv.DictReader]. *)
Record VisitRow := {
  vr_visit_id : option string;
  vr_barcode : option string;
  vr_reservation_id : option string }.

(** [@dataclass(frozen=True) class Visit] *)
Record Visit := {
  visit_id : string;
  barcode : string;
  reservation_id : option string }.

Definition Members := list (string * string).              (* barcode -> member_id *)
Definition GroupKey := (string * string)%type.             (* (member_id, barcode) *)
Definition Grouped := list (GroupKey * list string).

(* ------------------------------------------------------------------ *)
(** ** [load_members] *)

Definition load_members_step (m : Members) (row : MemberRow) : Members :=
  let member_id := strip (or_empty (mr_member_id row)) in
  let barcode := strip (or_empty (mr_barcode row)) in
  if is_empty member_id || is_empty barcode then m
  else if Dict.mem String.eqb barcode m then m
  else (m ++ [(barcode, member_id)])%list.

Definition load_members (rows : list MemberRow) : Members :=
  fold_left load_members_step rows [].

(* ------------------------------------------------------------------ *)
(** ** [load_visits] *)

Definition load_visits_step (acc : list Visit) (row : VisitRow) : list Visit :=
  let vid := strip (or_empty (vr_visit_id row)) in
  let bc := strip (or_empty (vr_barcode row)) in
  let res := strip (or_empty (vr_reservation_id row)) in
  let reservation := if is_empty res then None else Some res in
  if is_empty vid then acc
  else (acc ++ [{| visit_id := vid; barcode := bc; reservation_id := reservation |}])%list.

Definition load_visits (rows : list VisitRow) : list Visit :=
  fold_left load_visits_step rows [].

(* ------------------------------------------------------------------ *)
(** ** [validate_and_group_visits] *)

(** One iteration of the loop over [visits]: the state is
    [(grouped, walk_in_count)]. *)
Definition validate_step (members : Members) (st : Grouped * nat) (v : Visit)
  : Grouped * nat :=
  let (grouped, walk_in_count) := st in
  if is_empty (barcode v) then st
  else
    match Dict.get String.eqb (barcode v) members with
    | None => st
    | Some member_id =>
        if is_empty member_id then st
        else
          let grouped' :=
            Dict.upd key_eqb (member_id, barcode v) []
              (fun l => (l ++ [visit_id v])%list) grouped in
          match reservation_id v with
          | None => (grouped', S walk_in_count)
          | Some _ => (grouped', walk_in_count)
          end
    end.

Definition validate_and_group_visits (members : Members) (visits : list Visit)
  : Grouped * nat :=
  fold_left (validate_step members) visits ([], 0%nat).

(* ------------------------------------------------------------------ *)
(** ** [build_summary] and [print_top_members] *)

Record Summary := {
  total_valid_visits : nat;
  total_walk_ins : nat;
  top_members : list (string * nat) }.

(** The ranking key [lambda item: (-item[1], item[0])]. *)
Definition rank_key (item : string * nat) : Z * string :=
  (- Z.of_nat (snd item), fst item)%Z.

Definition rank_lt (a b : string * nat) : bool :=
  int_str_lt (rank_key a) (rank_key b).

(** The loop of [build_summary]: state [(visits_per_member, total_valid_visits)]. *)
Definition summary_step (st : list (string * nat) * nat)
  (e : GroupKey * list string) : list (string * nat) * nat :=
  let (vpm, total) := st in
  let count := length (snd e) in
  (Dict.upd String.eqb (fst (fst e)) 0%nat (fun c => c + count)%nat vpm,
   (total + count)%nat).

Definition build_summary (grouped_data : Grouped) (walk_in_count : nat) (top_n : Z)
  : Summary :=
  let (visits_per_member, total) := fold_left summary_step grouped_data ([], 0%nat) in
  {| total_valid_visits := total;
     total_walk_ins := walk_in_count;
     top_members := slice_to top_n (sorted rank_lt visits_per_member) |}.

(** The loop of [print_top_members]. *)
Definition count_step (vpm : list (string * nat)) (e : GroupKey * list string)
  : list (string * nat) :=
  Dict.upd String.eqb (fst (fst e)) 0%nat (fun c => c + length (snd e))%nat vpm.

(** [print_top_members], as the list of [(member_id, count)] pairs it
    prints, one per line, between its banner lines. *)
Definition print_top_members (grouped_data : Grouped) (top_n : Z)
  : list (string * nat) :=
  let visits_per_member := fold_left count_step grouped_data [] in
  slice_to top_n (sorted rank_lt visits_per_member).

(* ------------------------------------------------------------------ *)
(** ** [write_output] *)

Definition header : string := "member_id,barcode,visits" ++ nl.

(** [f"{member_id},{barcode},{visits_repr}\n"] with
    [visits_repr = "[" + ", ".join(visit_ids) + "]"]. *)
Definition render_row (k : GroupKey) (visit_ids : list string) : string :=
  fst k ++ "," ++ snd k ++ "," ++ ("[" ++ String.concat ", " visit_ids ++ "]") ++ nl.

(** The writes of the loop over the sorted keys; [grouped_data[k]] raises
    [KeyError] (here [None]) on a missing key. *)
Fixpoint write_rows (grouped_data : Grouped) (keys : list GroupKey) : option string :=
  match keys with
  | [] => Some ""
  | k :: ks =>
      match Dict.get key_eqb k grouped_data, write_rows grouped_data ks with
      | Some visit_ids, Some rest => Some (render_row k visit_ids ++ rest)
      | _, _ => None
      end
  end.

(** The content of the file written by [write_output]. *)
Definition write_output (grouped_data : Grouped) : option string :=
  match write_rows grouped_data (sorted str_pair_lt (map fst grouped_data)) with
  | Some body => Some (header ++ body)
  | None => None
  end.

(* ------------------------------------------------------------------ *)
(** ** Reading the tabular report back

    No reader of [output.csv] exists in the repository; the round trip of
    the spec is stated against this reader of the format written by
    [write_output]: split the content at newlines, check the header, then
    split each row at its first two commas, remove the brackets around the
    visit list and split the list at [", "]. *)

Definition nl_char : ascii := ascii_of_nat 10.

Fixpoint has_char (c : ascii) (s : string) : bool :=
  match s with
  | EmptyString => false
  | String d s' => Ascii.eqb c d || has_char c s'
  end.

(** The pieces of [s] between the occurrences of [c]. *)
Fixpoint split_on (c : ascii) (s : string) : list string :=
  match s with
  | EmptyString => [EmptyString]
  | String d s' =>
      if Ascii.eqb c d then EmptyString :: split_on c s'
      else match split_on c s' with
           | [] => [String d EmptyString]
           | w :: ws => String d w :: ws
           end
  end.

(** [s] cut at the first occurrence of [c]. *)
Fixpoint break_at (c : ascii) (s : string) : option (string * string) :=
  match s with
  | EmptyString => None
  | String d s' =>
      if Ascii.eqb c d then Some (EmptyString, s')
      else match break_at c s' with
           | Some (a, b) => Some (String d a, b)
           | None => None
           end
  end.

(** [s] without its final [']']. *)
Fixpoint strip_close (s : string) : option string :=
  match s with
  | EmptyString => None
  | String d s' =>
      match s' with
      | EmptyString => if Ascii.eqb d "]" then Some EmptyString else None
      | String _ _ =>
          match strip_close s' with
          | Some r => Some (String d r)
          | None => None
          end
      end
  end.

Definition drop_space (s : string) : string :=
  match s with
  | String d s' => if Ascii.eqb d " " then s' else s
  | EmptyString => EmptyString
  end.

(** The items of a rendered list, from the text between the brackets. *)
Definition parse_visits (inner : string) : list string :=
  match inner with
  | EmptyString => []
  | String _ _ =>
      match split_on "," inner with
      | [] => []
      | first :: others => first :: map drop_space others
      end
  end.

Definition parse_row (line : string) : option (GroupKey * list string) :=
  match break_at "," line with
  | Some (member_id, rest) =>
      match break_at "," rest with
      | Some (bc, String d vis) =>
          if Ascii.eqb d "[" then
            match strip_close vis with
            | Some inner => Some ((member_id, bc), parse_visits inner)
            | None => None
            end
          else None
      | _ => None
      end
  | None => None
  end.

(** The rows, up to the empty piece that follows the final newline. *)
Fixpoint parse_lines (ls : list string) : option Grouped :=
  match ls with
  | [] => Some []
  | [EmptyString] => Some []
  | l :: ls' =>
      match parse_row l, parse_lines ls' with
      | Some r, Some rs => Some (r :: rs)
      | _, _ => None
      end
  end.

Definition parse_report (content : string) : option Grouped :=
  match split_on nl_char content with
  | h :: ls => if String.eqb h "member_id,barcode,visits" then parse_lines ls else None
  | [] => None
  end.

(** A field free of the report's separators. *)
Definition no_sep (s : string) : bool :=
  negb (has_char "," s) && negb (has_char nl_char s).

Definition clean_entry (e : GroupKey * list string) : Prop :=
  no_sep (fst (fst e)) = true /\ no_sep (snd (fst e)) = true /\
  Forall (fun v => no_sep v = true /\ v <> EmptyString) (snd e).

(* ------------------------------------------------------------------ *)
(** ** Predicates used in the statements *)

(** [sum(len(v) for v in grouped.values())] *)
Definition total_len (g : Grouped) : nat :=
  fold_right (fun e acc => length (snd e) + acc)%nat 0%nat g.

(** A visit that passes both checks of [validate_and_group_visits]. *)
Definition accepted (members : Members) (v : Visit) : bool :=
  negb (is_empty (barcode v)) &&
  match Dict.get String.eqb (barcode v) members with
  | Some member_id => negb (is_empty member_id)
  | None => false
  end.

(** A visit whose barcode is non-empty and a key of the member mapping. *)
Definition barcode_known (members : Members) (v : Visit) : bool :=
  negb (is_empty (barcode v)) && Dict.mem String.eqb (barcode v) members.

Definition is_walk_in (v : Visit) : bool :=
  match reservation_id v with None => true | Some _ => false end.

(** Every member_id of the mapping is non-empty, as [load_members] ensures. *)
Definition members_nonempty (members : Members) : Prop :=
  Forall (fun e => is_empty (snd e) = false) members.

(** Sum of the lengths of the groups of member [m]. *)
Definition member_total (g : Grouped) (m : string) : nat :=
  fold_right (fun e acc => if String.eqb (fst (fst e)) m then length (snd e) + acc else acc)%nat
    0%nat g.

(** Some group of [g] belongs to member [m]. *)
Definition member_seen (g : Grouped) (m : string) : bool :=
  existsb (fun e => String.eqb (fst (fst e)) m) g.

(** The body written after the header for rows taken in list order. *)
Definition concat_rows (rows : Grouped) : string :=
  fold_right (fun e acc => render_row (fst e) (snd e) ++ acc) "" rows.

(** Entries ordered by their keys, as [sorted(grouped_data)] orders keys. *)
Definition entry_lt (a b : GroupKey * list string) : bool := str_pair_lt (fst a) (fst b).

(** The member_id of the first row that has both fields non-empty after
    trimming and trimmed barcode [b]. *)
Fixpoint first_member (rows : list MemberRow) (b : string) : option string :=
  match rows with
  | [] => None
  | r :: rs =>
      let mid := strip (or_empty (mr_member_id r)) in
      let bc := strip (or_empty (mr_barcode r)) in
      if negb (is_empty mid) && negb (is_empty bc) && String.eqb bc b then Some mid
      else first_member rs b
  end.

(** Empty or whitespace only. *)
Fixpoint blank (s : string) : bool :=
  match s with
  | EmptyString => true
  | String c s' => is_space c && blank s'
  end.

(* ------------------------------------------------------------------ *)
(** ** [io.write_output_csv] and [processor.main] *)

(** [write_output_csv(file, rows)]: one [f"{member_id},{barcode},{visits}\n"]
    per row. *)
Fixpoint write_output_csv (rows : list (string * string * string)) : string :=
  match rows with
  | [] => ""
  | (member_id, bc, visits) :: rs =>
      member_id ++ "," ++ bc ++ "," ++ visits ++ nl ++ write_output_csv rs
  end.

(** The values computed by [processor.main]: the content of [output.csv]
    and the summary (printing and [write_summary] only render them). *)
Definition processor_main (member_rows : list MemberRow) (visit_rows : list VisitRow)
  : option string * Summary :=
  let members := load_members member_rows in
  let visits := load_visits visit_rows in
  let (grouped_data, walk_in_count) := validate_and_group_visits members visits in
  (write_output grouped_data, build_summary grouped_data walk_in_count 5).

(** The member_id [members.get(v.barcode)] resolves to ([""] if none). *)
Definition member_of (members : Members) (v : Visit) : string :=
  match Dict.get String.eqb (barcode v) members with Some m => m | None => "" end.

(** The visit_ids, in input order, of the accepted visits of group [k]. *)
Definition group_of (members : Members) (k : GroupKey) (visits : list Visit) : list string :=
  map visit_id
    (filter (fun v => accepted members v && key_eqb (member_of members v, barcode v) k) visits).

(** The distinct member_ids of a grouping. *)
Definition distinct_members (g : Grouped) : list string :=
  nodup string_dec (map (fun e => fst (fst e)) g).

(** A mapping written back as rows of [members.csv]. *)
Definition rows_of_members (m : Members) : list MemberRow :=
  map (fun e => {| mr_member_id := Some (snd e); mr_barcode := Some (fst e) |}) m.

(** Visits written back as rows of [visits.csv], an absent reservation as
    an empty cell. *)
Definition rows_of_visits (vs : list Visit) : list VisitRow :=
  map (fun v => {| vr_visit_id := Some (visit_id v); vr_barcode := Some (barcode v);
                   vr_reservation_id := Some (or_empty (reservation_id v)) |}) vs.

(** An entry of the member mapping whose barcode and member_id are both
    non-empty and already trimmed. *)
Definition member_entry_clean (e : string * string) : Prop :=
  strip (fst e) = fst e /\ is_empty (fst e) = false /\
  strip (snd e) = snd e /\ is_empty (snd e) = false.

(** A visit as [load_visits] builds it: trimmed fields, a non-empty
    visit_id, and a present reservation only when it is non-empty. *)
Definition visit_clean (v : Visit) : Prop :=
  strip (visit_id v) = visit_id v /\ is_empty (visit_id v) = false /\
  strip (barcode v) = barcode v /\
  match reservation_id v with
  | None => True
  | Some r => strip r = r /\ is_empty r = false
  end.

(** A group key [(member_id, barcode)] consistent with the mapping. *)
Definition group_key_ok (members : Members) (k : GroupKey) : Prop :=
  Dict.get String.eqb (snd k) members = Some (fst k) /\
  is_empty (fst k) = false /\ is_empty (snd k) = false.

(** A visit, for the examples and witnesses. *)
Definition ex_v (vid bc : string) (res : option string) : Visit :=
  {| visit_id := vid; barcode := bc; reservation_id := res |}.

(** The scenario of the spec, section 8. *)
Definition ex_members : list MemberRow :=
  [ {| mr_member_id := Some "m1"; mr_barcode := Some "b1" |};
    {| mr_member_id := Some "m2"; mr_barcode := Some "b2" |} ].

Definition ex_visits : list VisitRow :=
  [ {| vr_visit_id := Some "v1"; vr_barcode := Some "b1"; vr_reservation_id := Some "" |};
    {| vr_visit_id := Some "v2"; vr_barcode := Some "b1"; vr_reservation_id := Some "r1" |};
    {| vr_visit_id := Some "v3"; vr_barcode := Some "b2"; vr_reservation_id := Some "r2" |};
    {| vr_visit_id := Some "v4"; vr_barcode := Some "bx"; vr_reservation_id := Some " " |} ].

Example ex_pipeline :
  validate_and_group_visits (load_members ex_members) (load_visits ex_visits)
  = ([(("m1", "b1"), ["v1"; "v2"]); (("m2", "b2"), ["v3"])], 1%nat).
Proof. reflexivity. Qed.

Example ex_write :
  write_output [(("m2", "b2"), ["v3"]); (("m1", "b1"), ["v1"; "v2"])]
  = Some ("member_id,barcode,visits" ++ nl ++ "m1,b1,[v1, v2]" ++ nl ++ "m2,b2,[v3]" ++ nl).
Proof. reflexivity. Qed.

Example ex_summary :
  top_members (build_summary [(("m1", "b1"), ["a"; "b"; "c"]); (("m0", "b2"), ["d"]);
                              (("m0", "b3"), ["e"; "f"]); (("m2", "b4"), ["g"])] 0 5)
  = [("m0", 3%nat); ("m1", 3%nat); ("m2", 1%nat)].
Proof. reflexivity. Qed.

Example ex_strip : strip "  a b 	" = "a b".
Proof. reflexivity. Qed.

(* ------------------------------------------------------------------ *)
(** ** Lemmas on the grouping loop *)

Lemma total_len_upd_append (k : GroupKey) (x : string) (g : Grouped) :
  total_len (Dict.upd key_eqb k [] (fun l => (l ++ [x])%list) g) = S (total_len g).
Proof.
  induction g as [|[k' l] g IH]; simpl; [reflexivity|].
  destruct (key_eqb k k'); simpl.
  - rewrite length_app; simpl; lia.
  - rewrite IH; lia.
Qed.

Lemma upd_append_nonempty (k : GroupKey) (x : string) (g : Grouped) :
  Forall (fun e => snd e <> []) g ->
  Forall (fun e => snd e <> []) (Dict.upd key_eqb k [] (fun l => (l ++ [x])%list) g).
Proof.
  induction g as [|[k' l] g IH]; simpl; intros H.
  - constructor; [simpl; discriminate|constructor].
  - inversion H; subst.
    destruct (key_eqb k k'); constructor; simpl; auto.
    destruct l; discriminate.
Qed.

Lemma validate_step_accepted (members : Members) (g : Grouped) (w : nat) (v : Visit) :
  accepted members v = true ->
  exists member_id,
    validate_step members (g, w) v =
    (Dict.upd key_eqb (member_id, barcode v) [] (fun l => (l ++ [visit_id v])%list) g,
     if is_walk_in v then S w else w).
Proof.
  unfold accepted, validate_step, is_walk_in.
  destruct (is_empty (barcode v)); simpl; [discriminate|].
  destruct (Dict.get String.eqb (barcode v) members) as [mid|]; [|discriminate].
  intros Hm. exists mid. apply negb_true_iff in Hm. rewrite Hm.
  destruct (reservation_id v); reflexivity.
Qed.

Lemma validate_step_rejected (members : Members) (st : Grouped * nat) (v : Visit) :
  accepted members v = false -> validate_step members st v = st.
Proof.
  destruct st as [g w].
  unfold accepted, validate_step.
  destruct (is_empty (barcode v)); simpl; [reflexivity|].
  destruct (Dict.get String.eqb (barcode v) members) as [mid|]; [|reflexivity].
  intros Hm. apply negb_false_iff in Hm. rewrite Hm. reflexivity.
Qed.

Lemma validate_fold_counts (members : Members) (visits : list Visit) (g : Grouped) (w : nat) :
  total_len (fst (fold_left (validate_step members) visits (g, w)))
    = (total_len g + length (filter (accepted members) visits))%nat /\
  snd (fold_left (validate_step members) visits (g, w))
    = (w + length (filter (fun v => accepted members v && is_walk_in v) visits))%nat.
Proof.
  revert g w. induction visits as [|v vs IH]; intros g w; cbn [fold_left filter].
  - simpl; lia.
  - destruct (accepted members v) eqn:Ha; cbn [andb length].
    + destruct (validate_step_accepted members g w v Ha) as [mid ->].
      destruct (IH (Dict.upd key_eqb (mid, barcode v) [] (fun l => (l ++ [visit_id v])%list) g)
                   (if is_walk_in v then S w else w)) as [H1 H2].
      rewrite total_len_upd_append in H1.
      split; (etransitivity; [eassumption|]); [lia|].
      destruct (is_walk_in v); simpl; lia.
    + rewrite validate_step_rejected by exact Ha. apply IH.
Qed.

Lemma validate_fold_nonempty (members : Members) (visits : list Visit) (st : Grouped * nat) :
  Forall (fun e => snd e <> []) (fst st) ->
  Forall (fun e => snd e <> []) (fst (fold_left (validate_step members) visits st)).
Proof.
  revert st. induction visits as [|v vs IH]; intros [g w] H; cbn [fold_left]; [exact H|].
  apply IH.
  destruct (accepted members v) eqn:Ha.
  - destruct (validate_step_accepted members g w v Ha) as [mid ->].
    apply upd_append_nonempty; exact H.
  - rewrite validate_step_rejected by exact Ha. exact H.
Qed.

Lemma summary_fold_total (g : Grouped) (vpm : list (string * nat)) (t : nat) :
  snd (fold_left summary_step g (vpm, t)) = (t + total_len g)%nat.
Proof.
  revert vpm t. induction g as [|e g IH]; intros vpm t; simpl; [lia|].
  rewrite IH. lia.
Qed.

Lemma build_summary_total (g : Grouped) (w : nat) (top_n : Z) :
  total_valid_visits (build_summary g w top_n) = total_len g.
Proof.
  unfold build_summary.
  pose proof (summary_fold_total g [] 0) as H.
  destruct (fold_left summary_step g ([], 0%nat)) as [vpm t]; simpl in *. exact H.
Qed.

Lemma validate_counts (members : Members) (visits : list Visit) :
  total_len (fst (validate_and_group_visits members visits))
    = length (filter (accepted members) visits) /\
  snd (validate_and_group_visits members visits)
    = length (filter (fun v => accepted members v && is_walk_in v) visits).
Proof. exact (validate_fold_counts members visits [] 0). Qed.

Lemma accepted_known (members : Members) (v : Visit) :
  members_nonempty members -> accepted members v = barcode_known members v.
Proof.
  intros Hm. unfold accepted, barcode_known, Dict.mem.
  destruct (is_empty (barcode v)); simpl; [reflexivity|].
  induction members as [|[b mid] ms IH]; simpl; [reflexivity|].
  inversion Hm; subst; simpl in *.
  destruct (String.eqb (barcode v) b).
  - rewrite H1. reflexivity.
  - apply IH; assumption.
Qed.

(* ------------------------------------------------------------------ *)
(** ** Totals and walk-ins of [validate_and_group_visits] *)

(** C2 (as stated, refuted): with a mapping that binds barcode ["b"] to the
    empty member_id, a visit with barcode ["b"] is non-empty and present in
    the mapping, yet it is not counted in [total_valid_visits]. *)
Lemma C2_present_barcode_not_counted :
  let members := [("b", "")] in
  let visits := [ex_v "v" "b" None] in
  let res := validate_and_group_visits members visits in
  total_valid_visits (build_summary (fst res) (snd res) 5) = 0%nat /\
  length (filter (barcode_known members) visits) = 1%nat.
Proof. split; reflexivity. Qed.

(** C2 (amended): [total_valid_visits] of [build_summary] on the grouping is
    the sum of the lengths of the grouped sequences, which is the number of
    visits with a non-empty barcode mapped to a non-empty member_id; for a
    mapping whose member_ids are all non-empty (as [load_members] builds
    them) this is the number of visits whose barcode is non-empty and
    present in the mapping. *)
Theorem validate_total_valid_visits (members : Members) (visits : list Visit) (top_n : Z) :
  total_valid_visits
    (build_summary (fst (validate_and_group_visits members visits))
                   (snd (validate_and_group_visits members visits)) top_n)
  = total_len (fst (validate_and_group_visits members visits)) /\
  total_len (fst (validate_and_group_visits members visits))
  = length (filter (accepted members) visits) /\
  (members_nonempty members ->
   total_len (fst (validate_and_group_visits members visits))
   = length (filter (barcode_known members) visits)).
Proof.
  rewrite build_summary_total.
  destruct (validate_counts members visits) as [H1 _].
  split; [reflexivity|]. split; [exact H1|].
  intros Hm. rewrite H1. f_equal. apply filter_ext. intros v. apply accepted_known; exact Hm.
Qed.

Lemma validate_total_valid_visits_witness :
  members_nonempty [("b1", "m1"); ("b2", "m2")] /\
  total_len (fst (validate_and_group_visits [("b1", "m1"); ("b2", "m2")]
                    [ex_v "v1" "b1" None; ex_v "v2" "" None; ex_v "v3" "bx" None]))
  = length (filter (barcode_known [("b1", "m1"); ("b2", "m2")])
                   [ex_v "v1" "b1" None; ex_v "v2" "" None; ex_v "v3" "bx" None]).
Proof.
  assert (Hm : members_nonempty [("b1", "m1"); ("b2", "m2")])
    by (repeat constructor).
  split; [exact Hm|].
  apply (validate_total_valid_visits [("b1", "m1"); ("b2", "m2")]
           [ex_v "v1" "b1" None; ex_v "v2" "" None; ex_v "v3" "bx" None] 5).
  exact Hm.
Defined.

(** C3: the walk-in count of [validate_and_group_visits] is the number of
    visits that were appended to the grouping (both barcode checks passed)
    and have no reservation_id; a rejected visit never counts. *)
Theorem validate_walk_in_count (members : Members) (visits : list Visit) :
  snd (validate_and_group_visits members visits)
  = length (filter (fun v => accepted members v && is_walk_in v) visits).
Proof.
  apply validate_counts.
Qed.

(** C8: a visit whose barcode is a key of the mapping bound to the empty
    member_id is rejected: removing it from the input changes neither the
    grouping nor the walk-in count. *)
Theorem validate_empty_member_id_rejected
  (members : Members) (pre post : list Visit) (v : Visit) :
  Dict.get String.eqb (barcode v) members = Some "" ->
  validate_and_group_visits members (pre ++ v :: post)%list
  = validate_and_group_visits members (pre ++ post)%list.
Proof.
  intros Hget. unfold validate_and_group_visits.
  rewrite !fold_left_app. cbn [fold_left].
  rewrite validate_step_rejected; [reflexivity|].
  unfold accepted. rewrite Hget. apply andb_false_r.
Qed.

Lemma validate_empty_member_id_rejected_witness :
  Dict.get String.eqb "b" [("b", "")] = Some "" /\
  validate_and_group_visits [("b", "")] ([ex_v "v0" "b" None] ++ ex_v "v1" "b" None :: [])%list
  = validate_and_group_visits [("b", "")] ([ex_v "v0" "b" None] ++ [])%list.
Proof.
  split; [reflexivity|].
  apply (validate_empty_member_id_rejected [("b", "")] [ex_v "v0" "b" None] []
           (ex_v "v1" "b" None)).
  reflexivity.
Defined.

(** C9: every group of the result holds at least one visit_id. *)
Theorem validate_groups_nonempty (members : Members) (visits : list Visit) :
  Forall (fun e => snd e <> []) (fst (validate_and_group_visits members visits)).
Proof.
  apply validate_fold_nonempty. constructor.
Qed.

(** C10: walk-ins never exceed the total number of grouped visits. *)
Theorem validate_walk_ins_le_total (members : Members) (visits : list Visit) :
  (snd (validate_and_group_visits members visits)
   <= total_len (fst (validate_and_group_visits members visits)))%nat.
Proof.
  destruct (validate_counts members visits) as [H1 H2].
  rewrite H1, H2. clear H1 H2.
  induction visits as [|v vs IH]; simpl; [lia|].
  destruct (accepted members v); simpl; [|exact IH].
  destruct (is_walk_in v); simpl; lia.
Qed.

(* ------------------------------------------------------------------ *)
(** ** The order on strings *)

Lemma ascii_compare_trans (x y z : ascii) (c : comparison) :
  c <> Eq -> Ascii.compare x y = c -> Ascii.compare y z = c -> Ascii.compare x z = c.
Proof.
  unfold Ascii.compare. intros Hc Hxy Hyz.
  destruct c; [congruence| |].
  - rewrite N.compare_lt_iff in *. lia.
  - rewrite N.compare_gt_iff in *. lia.
Qed.

Lemma ascii_compare_refl (x : ascii) : Ascii.compare x x = Eq.
Proof. unfold Ascii.compare. apply N.compare_refl. Qed.

Lemma string_compare_refl (s : string) : String.compare s s = Eq.
Proof.
  induction s as [|c s IH]; simpl; [reflexivity|].
  rewrite ascii_compare_refl. exact IH.
Qed.

Lemma string_compare_lt_trans (a b c : string) :
  String.compare a b = Lt -> String.compare b c = Lt -> String.compare a c = Lt.
Proof.
  revert b c. induction a as [|x a IH]; intros [|y b] [|z c]; simpl; try congruence.
  destruct (Ascii.compare x y) eqn:Hxy, (Ascii.compare y z) eqn:Hyz;
    try congruence; intros H1 H2.
  - apply Ascii.compare_eq_iff in Hxy, Hyz. subst.
    rewrite ascii_compare_refl. eauto.
  - apply Ascii.compare_eq_iff in Hxy. subst. rewrite Hyz. reflexivity.
  - apply Ascii.compare_eq_iff in Hyz. subst. rewrite Hxy. reflexivity.
  - rewrite (ascii_compare_trans x y z Lt) by (congruence || assumption). reflexivity.
Qed.

Lemma string_ltb_irrefl (s : string) : String.ltb s s = false.
Proof. unfold String.ltb. rewrite string_compare_refl. reflexivity. Qed.

Lemma string_ltb_trans (a b c : string) :
  String.ltb a b = true -> String.ltb b c = true -> String.ltb a c = true.
Proof.
  unfold String.ltb.
  destruct (String.compare a b) eqn:H1; try discriminate.
  destruct (String.compare b c) eqn:H2; try discriminate.
  rewrite (string_compare_lt_trans a b c H1 H2). reflexivity.
Qed.

Lemma string_ltb_total (a b : string) :
  String.ltb a b = false -> String.ltb b a = false -> a = b.
Proof.
  unfold String.ltb. rewrite (String.compare_antisym b a).
  destruct (String.compare a b) eqn:H; simpl; try discriminate.
  intros _ _. apply String.compare_eq_iff. exact H.
Qed.

(* ------------------------------------------------------------------ *)
(** ** [sorted] for a strict total order *)

Section SortProps.
Context {A : Type} (lt : A -> A -> bool).
Hypothesis lt_irrefl : forall a, lt a a = false.
Hypothesis lt_trans : forall a b c, lt a b = true -> lt b c = true -> lt a c = true.
Hypothesis lt_total : forall a b, lt a b = false -> lt b a = false -> a = b.

Let R (a b : A) : Prop := lt a b = true.

Lemma insert_perm (x : A) (l : list A) : Permutation (insert lt x l) (x :: l).
Proof.
  induction l as [|y l IH]; simpl; [reflexivity|].
  destruct (lt y x); [|reflexivity].
  rewrite IH. apply perm_swap.
Qed.

Lemma sorted_perm (l : list A) : Permutation (sorted lt l) l.
Proof.
  induction l as [|x l IH]; simpl; [reflexivity|].
  rewrite insert_perm, IH. reflexivity.
Qed.

Lemma insert_strongly_sorted (x : A) (l : list A) :
  StronglySorted R l -> ~ In x l -> StronglySorted R (insert lt x l).
Proof.
  induction l as [|y l IH]; simpl; intros Hs Hx.
  - repeat constructor.
  - apply StronglySorted_inv in Hs as [Hs Hy].
    destruct (lt y x) eqn:Eyx.
    + constructor; [apply IH; tauto|].
      apply Forall_forall. intros z Hz.
      apply (Permutation_in _ (insert_perm x l)) in Hz as [<-|Hz]; [exact Eyx|].
      rewrite Forall_forall in Hy. apply Hy, Hz.
    + assert (Exy : lt x y = true).
      { destruct (lt x y) eqn:E; [reflexivity|].
        exfalso. apply Hx. left. symmetry. apply lt_total; assumption. }
      constructor; [constructor; assumption|].
      constructor; [exact Exy|].
      eapply Forall_impl; [|exact Hy]. intros z Hz. exact (lt_trans x y z Exy Hz).
Qed.

Lemma sorted_strongly_sorted (l : list A) :
  NoDup l -> StronglySorted R (sorted lt l).
Proof.
  induction l as [|x l IH]; simpl; intros Hnd; [constructor|].
  inversion Hnd; subst.
  apply insert_strongly_sorted; [apply IH; assumption|].
  intros Hin. apply (Permutation_in _ (sorted_perm l)) in Hin. contradiction.
Qed.

Lemma strongly_sorted_unique (l1 l2 : list A) :
  StronglySorted R l1 -> StronglySorted R l2 -> Permutation l1 l2 -> l1 = l2.
Proof.
  revert l2. induction l1 as [|a l1 IH]; intros l2 H1 H2 Hp.
  - symmetry. apply Permutation_nil. exact Hp.
  - destruct l2 as [|b l2].
    + exfalso. apply (Permutation_nil_cons (Permutation_sym Hp)).
    + apply StronglySorted_inv in H1 as [H1 F1].
      apply StronglySorted_inv in H2 as [H2 F2].
      assert (a = b) as <-.
      { destruct (lt a b) eqn:Eab.
        - assert (Hb : In b (a :: l1)) by (apply (Permutation_in _ (Permutation_sym Hp)); left; reflexivity).
          destruct Hb as [->|Hb]; [reflexivity|].
          rewrite Forall_forall in F1. specialize (F1 b Hb). unfold R in F1.
          exfalso. pose proof (lt_trans a b a Eab) as T.
          assert (Hab : In a (b :: l2)) by (apply (Permutation_in _ Hp); left; reflexivity).
          destruct Hab as [->|Hab]; [rewrite lt_irrefl in Eab; discriminate|].
          rewrite Forall_forall in F2. specialize (T (F2 a Hab)).
          rewrite lt_irrefl in T. discriminate.
        - destruct (lt b a) eqn:Eba; [|apply lt_total; assumption].
          assert (Hb : In b (a :: l1)) by (apply (Permutation_in _ (Permutation_sym Hp)); left; reflexivity).
          destruct Hb as [->|Hb]; [reflexivity|].
          rewrite Forall_forall in F1. specialize (F1 b Hb). unfold R in F1.
          congruence. }
      f_equal. apply IH; try assumption.
      apply Permutation_cons_inv with a. exact Hp.
Qed.
End SortProps.

(* ------------------------------------------------------------------ *)
(** ** The two tuple orders are strict total orders *)

Lemma int_str_lt_irrefl (a : Z * string) : int_str_lt a a = false.
Proof.
  destruct a as [x s]; unfold int_str_lt; simpl.
  rewrite Z.eqb_refl. apply string_ltb_irrefl.
Qed.

Lemma int_str_lt_trans (a b c : Z * string) :
  int_str_lt a b = true -> int_str_lt b c = true -> int_str_lt a c = true.
Proof.
  destruct a as [x1 s1], b as [x2 s2], c as [x3 s3]; unfold int_str_lt; simpl.
  destruct (Z.eqb_spec x1 x2), (Z.eqb_spec x2 x3), (Z.eqb_spec x1 x3);
    subst; intros H1 H2; try rewrite Z.ltb_lt in *; try lia.
  eapply string_ltb_trans; eassumption.
Qed.

Lemma int_str_lt_total (a b : Z * string) :
  int_str_lt a b = false -> int_str_lt b a = false -> a = b.
Proof.
  destruct a as [x1 s1], b as [x2 s2]; unfold int_str_lt; simpl.
  destruct (Z.eqb_spec x1 x2), (Z.eqb_spec x2 x1); subst; intros H1 H2; try lia.
  f_equal. apply string_ltb_total; assumption.
Qed.

Lemma rank_lt_irrefl (a : string * nat) : rank_lt a a = false.
Proof. apply int_str_lt_irrefl. Qed.

Lemma rank_lt_trans (a b c : string * nat) :
  rank_lt a b = true -> rank_lt b c = true -> rank_lt a c = true.
Proof. apply int_str_lt_trans. Qed.

Lemma rank_lt_total (a b : string * nat) :
  rank_lt a b = false -> rank_lt b a = false -> a = b.
Proof.
  intros H1 H2. pose proof (int_str_lt_total _ _ H1 H2) as H.
  destruct a as [m1 c1], b as [m2 c2]; unfold rank_key in H; simpl in H.
  injection H as Hc Hm. subst. f_equal. lia.
Qed.

(** [rank_lt] is "more visits, or as many visits and a smaller member_id". *)
Lemma rank_lt_iff (a b : string * nat) :
  rank_lt a b = true <->
  (snd b < snd a)%nat \/ (snd a = snd b /\ String.ltb (fst a) (fst b) = true).
Proof.
  destruct a as [m1 c1], b as [m2 c2]; unfold rank_lt, rank_key, int_str_lt; simpl.
  destruct (Z.eqb_spec (- Z.of_nat c1) (- Z.of_nat c2)).
  - split; [intros H; right; split; [lia|exact H]|].
    intros [H|[_ H]]; [lia|exact H].
  - rewrite Z.ltb_lt. split; [intros; left; lia|]. intros [H|[H _]]; lia.
Qed.

Lemma str_pair_lt_irrefl (a : string * string) : str_pair_lt a a = false.
Proof.
  destruct a as [x s]; unfold str_pair_lt; simpl.
  rewrite String.eqb_refl. apply string_ltb_irrefl.
Qed.

Lemma str_pair_lt_trans (a b c : string * string) :
  str_pair_lt a b = true -> str_pair_lt b c = true -> str_pair_lt a c = true.
Proof.
  destruct a as [x1 s1], b as [x2 s2], c as [x3 s3]; unfold str_pair_lt; simpl.
  destruct (String.eqb_spec x1 x2), (String.eqb_spec x2 x3), (String.eqb_spec x1 x3);
    subst; intros H1 H2; try congruence.
  - eapply string_ltb_trans; eassumption.
  - exfalso. pose proof (string_ltb_trans _ _ _ H1 H2) as H.
    rewrite string_ltb_irrefl in H. discriminate.
  - eapply string_ltb_trans; eassumption.
Qed.

Lemma str_pair_lt_total (a b : string * string) :
  str_pair_lt a b = false -> str_pair_lt b a = false -> a = b.
Proof.
  destruct a as [x1 s1], b as [x2 s2]; unfold str_pair_lt; simpl.
  destruct (String.eqb_spec x1 x2), (String.eqb_spec x2 x1); subst; intros H1 H2;
    try congruence.
  - f_equal. apply string_ltb_total; assumption.
  - exfalso. apply n. apply string_ltb_total; assumption.
Qed.

(* ------------------------------------------------------------------ *)
(** ** Dicts with string keys *)

Lemma upd_keys {V} (keqb : string -> string -> bool) (k : string) (dflt : V) (f : V -> V)
  (d : list (string * V)) :
  map fst (Dict.upd keqb k dflt f d)
  = if existsb (keqb k) (map fst d) then map fst d else (map fst d ++ [k])%list.
Proof.
  induction d as [|[k' v] d IH]; simpl; [reflexivity|].
  destruct (keqb k k'); simpl; [reflexivity|].
  rewrite IH. destruct (existsb (keqb k) (map fst d)); reflexivity.
Qed.

Lemma upd_nodup {V} (k : string) (dflt : V) (f : V -> V) (d : list (string * V)) :
  NoDup (map fst d) -> NoDup (map fst (Dict.upd String.eqb k dflt f d)).
Proof.
  intros Hnd. rewrite upd_keys.
  destruct (existsb (String.eqb k) (map fst d)) eqn:E; [exact Hnd|].
  apply NoDup_app; [exact Hnd|repeat constructor; simpl; tauto|].
  intros x Hx [->|[]].
  assert (existsb (String.eqb x) (map fst d) = true) as E'
    by (apply existsb_exists; exists x; split; [exact Hx|apply String.eqb_refl]).
  congruence.
Qed.

Lemma get_upd {V} (m k : string) (dflt : V) (f : V -> V) (d : list (string * V)) :
  Dict.get String.eqb m (Dict.upd String.eqb k dflt f d)
  = if String.eqb m k
    then Some (f (match Dict.get String.eqb k d with Some v => v | None => dflt end))
    else Dict.get String.eqb m d.
Proof.
  induction d as [|[k' v] d IH]; simpl.
  - destruct (String.eqb m k); reflexivity.
  - destruct (String.eqb_spec k k'); simpl.
    + subst. destruct (String.eqb m k'); reflexivity.
    + rewrite IH.
      destruct (String.eqb_spec m k), (String.eqb_spec m k'); subst; congruence.
Qed.

Lemma in_get_by {K V} (keqb : K -> K -> bool) (Hk : forall a b, keqb a b = true <-> a = b)
  (k : K) (v : V) (d : list (K * V)) :
  NoDup (map fst d) -> In (k, v) d <-> Dict.get keqb k d = Some v.
Proof.
  induction d as [|[k' v'] d IH]; simpl; intros Hnd; [split; [tauto|discriminate]|].
  inversion Hnd as [|? ? Hk' Hnd']; subst.
  destruct (keqb k k') eqn:E.
  - apply Hk in E. subst. split.
    + intros [H|H]; [congruence|].
      exfalso. apply Hk'. apply (in_map fst) in H. exact H.
    + intros H; injection H as <-. left; reflexivity.
  - rewrite <- IH by exact Hnd'. split; [|tauto].
    intros [H|H]; [|exact H].
    injection H as -> _. rewrite (proj2 (Hk k k) eq_refl) in E. discriminate.
Qed.

Lemma in_get {V} (k : string) (v : V) (d : list (string * V)) :
  NoDup (map fst d) -> In (k, v) d <-> Dict.get String.eqb k d = Some v.
Proof. apply in_get_by. apply String.eqb_eq. Qed.

(* ------------------------------------------------------------------ *)
(** ** Per-member visit totals *)

Lemma member_total_cons (e : GroupKey * list string) (g : Grouped) (m : string) :
  member_total (e :: g) m
  = if String.eqb (fst (fst e)) m then (length (snd e) + member_total g m)%nat
    else member_total g m.
Proof. reflexivity. Qed.

Lemma member_seen_cons (e : GroupKey * list string) (g : Grouped) (m : string) :
  member_seen (e :: g) m = String.eqb (fst (fst e)) m || member_seen g m.
Proof. reflexivity. Qed.

Lemma count_fold_get (g : Grouped) (acc : list (string * nat)) (m : string) :
  Dict.get String.eqb m (fold_left count_step g acc)
  = match Dict.get String.eqb m acc with
    | Some c => Some (c + member_total g m)%nat
    | None => if member_seen g m then Some (member_total g m) else None
    end.
Proof.
  revert acc. induction g as [|e g IH]; intros acc; cbn [fold_left].
  - unfold member_total, member_seen; simpl.
    destruct (Dict.get String.eqb m acc); [f_equal; lia|reflexivity].
  - rewrite IH. unfold count_step. rewrite get_upd.
    rewrite member_total_cons, member_seen_cons.
    rewrite (String.eqb_sym (fst (fst e)) m).
    destruct (String.eqb_spec m (fst (fst e))) as [<-|]; simpl.
    + destruct (Dict.get String.eqb m acc); f_equal; lia.
    + reflexivity.
Qed.

Lemma count_fold_nodup (g : Grouped) (acc : list (string * nat)) :
  NoDup (map fst acc) -> NoDup (map fst (fold_left count_step g acc)).
Proof.
  revert acc. induction g as [|e g IH]; intros acc H; simpl; [exact H|].
  apply IH. apply upd_nodup. exact H.
Qed.

Lemma summary_fold_counts (g : Grouped) (vpm : list (string * nat)) (t : nat) :
  fst (fold_left summary_step g (vpm, t)) = fold_left count_step g vpm.
Proof.
  revert vpm t. induction g as [|e g IH]; intros vpm t; simpl; [reflexivity|].
  apply IH.
Qed.

Lemma build_summary_top (g : Grouped) (w : nat) (top_n : Z) :
  top_members (build_summary g w top_n) = print_top_members g top_n.
Proof.
  unfold build_summary, print_top_members.
  pose proof (summary_fold_counts g [] 0) as H.
  destruct (fold_left summary_step g ([], 0%nat)) as [vpm t]; simpl in *.
  rewrite H. reflexivity.
Qed.

Lemma strongly_sorted_impl {A} (R S : A -> A -> Prop) (l : list A) :
  (forall a b, R a b -> S a b) -> StronglySorted R l -> StronglySorted S l.
Proof.
  intros HRS. induction 1; constructor; [assumption|].
  eapply Forall_impl; [|eassumption]. apply HRS.
Qed.

(* ------------------------------------------------------------------ *)
(** ** The top-N ranking *)

(** C1: the top-N list of [build_summary] (and the one printed by
    [print_top_members]) is the first [top_n] entries of the list of all
    members with their total visit counts, ordered by descending count and,
    for equal counts, by ascending member_id. *)
Theorem build_summary_ranking (g : Grouped) (w top_n : nat) :
  exists ranked : list (string * nat),
    (forall m c, In (m, c) ranked <-> member_seen g m = true /\ c = member_total g m) /\
    NoDup (map fst ranked) /\
    StronglySorted
      (fun a b => (snd b < snd a)%nat \/
                  (snd a = snd b /\ String.ltb (fst a) (fst b) = true)) ranked /\
    top_members (build_summary g w (Z.of_nat top_n)) = firstn top_n ranked /\
    print_top_members g (Z.of_nat top_n) = firstn top_n ranked.
Proof.
  pose (vpm := fold_left count_step g []).
  assert (Hnd : NoDup (map fst vpm)) by (apply count_fold_nodup; constructor).
  pose proof (sorted_perm rank_lt vpm) as Hp.
  exists (sorted rank_lt vpm).
  split; [|split; [|split; [|split]]].
  - intros m c.
    split; intros H.
    + apply (Permutation_in _ Hp) in H.
      apply (in_get _ _ _ Hnd) in H. unfold vpm in H.
      rewrite count_fold_get in H. simpl in H.
      destruct (member_seen g m); [injection H as <-; tauto|discriminate].
    + apply (Permutation_in _ (Permutation_sym Hp)).
      apply (in_get _ _ _ Hnd). unfold vpm.
      rewrite count_fold_get. simpl. destruct H as [-> ->]. reflexivity.
  - apply (Permutation_NoDup (Permutation_map fst (Permutation_sym Hp))). exact Hnd.
  - eapply strongly_sorted_impl; [intros a b H; apply rank_lt_iff; exact H|].
    apply sorted_strongly_sorted.
    + exact rank_lt_trans.
    + exact rank_lt_total.
    + exact (NoDup_map_inv fst vpm Hnd).
  - rewrite build_summary_top. unfold print_top_members, slice_to.
    replace (0 <=? Z.of_nat top_n)%Z with true by (symmetry; apply Z.leb_le; lia).
    rewrite Nat2Z.id. reflexivity.
  - unfold print_top_members, slice_to.
    replace (0 <=? Z.of_nat top_n)%Z with true by (symmetry; apply Z.leb_le; lia).
    rewrite Nat2Z.id. reflexivity.
Qed.

Example ex_ranking_tie :
  print_top_members [(("m2", "b1"), ["v1"; "v2"; "v3"]); (("m1", "b2"), ["v4"; "v5"; "v6"])] 5
  = [("m1", 3%nat); ("m2", 3%nat)].
Proof. reflexivity. Qed.

Example ex_ranking_zero :
  build_summary [(("m1", "b1"), ["v1"; "v2"])] 1 0
  = {| total_valid_visits := 2; total_walk_ins := 1; top_members := [] |}.
Proof. reflexivity. Qed.

(* ------------------------------------------------------------------ *)
(** ** The tabular report *)

Lemma key_eqb_spec (a b : GroupKey) : key_eqb a b = true <-> a = b.
Proof.
  destruct a as [a1 a2], b as [b1 b2]; unfold key_eqb; simpl.
  rewrite andb_true_iff, !String.eqb_eq.
  split; [intros [-> ->]; reflexivity|intros H; injection H as -> ->; tauto].
Qed.

Lemma map_insert_entry (x : GroupKey * list string) (l : Grouped) :
  map fst (insert entry_lt x l) = insert str_pair_lt (fst x) (map fst l).
Proof.
  induction l as [|y l IH]; simpl; [reflexivity|].
  unfold entry_lt at 1. destruct (str_pair_lt (fst y) (fst x)); simpl; [|reflexivity].
  rewrite IH. reflexivity.
Qed.

Lemma map_sorted_entry (l : Grouped) :
  map fst (sorted entry_lt l) = sorted str_pair_lt (map fst l).
Proof.
  induction l as [|x l IH]; simpl; [reflexivity|].
  rewrite map_insert_entry, IH. reflexivity.
Qed.

Lemma strongly_sorted_map_inv {A B} (R : B -> B -> Prop) (f : A -> B) (l : list A) :
  StronglySorted R (map f l) -> StronglySorted (fun a b => R (f a) (f b)) l.
Proof.
  induction l as [|x l IH]; simpl; intros H; [constructor|].
  apply StronglySorted_inv in H as [H F].
  constructor; [apply IH, H|].
  apply Forall_forall. intros y Hy. rewrite Forall_forall in F.
  apply F, in_map, Hy.
Qed.

Lemma write_rows_concat (g rows : Grouped) :
  (forall k v, In (k, v) rows -> Dict.get key_eqb k g = Some v) ->
  write_rows g (map fst rows) = Some (concat_rows rows).
Proof.
  induction rows as [|[k v] rows IH]; simpl; intros H; [reflexivity|].
  rewrite (H k v (or_introl eq_refl)).
  rewrite IH by (intros k' v' Hin; apply H; right; exact Hin).
  reflexivity.
Qed.

Lemma write_rows_ext (g1 g2 : Grouped) (ks : list GroupKey) :
  (forall k, Dict.get key_eqb k g1 = Dict.get key_eqb k g2) ->
  write_rows g1 ks = write_rows g2 ks.
Proof.
  intros H. induction ks as [|k ks IH]; simpl; [reflexivity|].
  rewrite H, IH. reflexivity.
Qed.

Lemma get_perm (g1 g2 : Grouped) (k : GroupKey) :
  NoDup (map fst g1) -> Permutation g1 g2 ->
  Dict.get key_eqb k g1 = Dict.get key_eqb k g2.
Proof.
  intros Hnd Hp.
  assert (Hnd2 : NoDup (map fst g2)) by exact (Permutation_NoDup (Permutation_map fst Hp) Hnd).
  destruct (Dict.get key_eqb k g1) as [v|] eqn:E1.
  - symmetry. apply (in_get_by _ key_eqb_spec _ _ _ Hnd2).
    apply (Permutation_in _ Hp). apply (in_get_by _ key_eqb_spec _ _ _ Hnd). exact E1.
  - destruct (Dict.get key_eqb k g2) as [v|] eqn:E2; [|reflexivity].
    apply (in_get_by _ key_eqb_spec _ _ _ Hnd2) in E2.
    apply (Permutation_in _ (Permutation_sym Hp)) in E2.
    apply (in_get_by _ key_eqb_spec _ _ _ Hnd) in E2. exact (eq_sym (eq_trans (eq_sym E2) E1)).
Qed.

Lemma write_output_eq (g : Grouped) :
  NoDup (map fst g) ->
  write_output g = Some ("member_id,barcode,visits" ++ nl ++ concat_rows (sorted entry_lt g)).
Proof.
  intros Hnd. unfold write_output. rewrite <- map_sorted_entry.
  rewrite write_rows_concat; [reflexivity|].
  intros k v Hin. apply (in_get_by _ key_eqb_spec _ _ _ Hnd).
  apply (Permutation_in _ (sorted_perm entry_lt g)). exact Hin.
Qed.

(** C5: for a dict (distinct keys), [write_output] writes the header
    [member_id,barcode,visits] and then one row [member_id,barcode,[v1, v2, ...]]
    per entry, the entries in strictly ascending (member_id, barcode) order;
    the output does not depend on the insertion order of the dict. *)
Theorem write_output_format (g : Grouped) :
  NoDup (map fst g) ->
  (exists rows : Grouped,
      Permutation rows g /\
      StronglySorted (fun a b => str_pair_lt (fst a) (fst b) = true) rows /\
      write_output g = Some ("member_id,barcode,visits" ++ nl ++ concat_rows rows)) /\
  (forall g' : Grouped, Permutation g g' -> write_output g' = write_output g).
Proof.
  intros Hnd. split.
  - exists (sorted entry_lt g).
    pose proof (sorted_perm entry_lt g) as Hp.
    split; [exact Hp|]. split.
    + apply (strongly_sorted_map_inv (fun a b => str_pair_lt a b = true) fst).
      rewrite map_sorted_entry. apply sorted_strongly_sorted.
      * exact str_pair_lt_trans.
      * exact str_pair_lt_total.
      * exact Hnd.
    + apply write_output_eq. exact Hnd.
  - intros g' Hp.
    assert (Hnd' : NoDup (map fst g')) by exact (Permutation_NoDup (Permutation_map fst Hp) Hnd).
    assert (Hks : sorted str_pair_lt (map fst g') = sorted str_pair_lt (map fst g)).
    { apply (strongly_sorted_unique str_pair_lt str_pair_lt_irrefl str_pair_lt_trans str_pair_lt_total).
      - apply sorted_strongly_sorted; [exact str_pair_lt_trans|exact str_pair_lt_total|exact Hnd'].
      - apply sorted_strongly_sorted; [exact str_pair_lt_trans|exact str_pair_lt_total|exact Hnd].
      - rewrite !sorted_perm. apply Permutation_map. symmetry. exact Hp. }
    unfold write_output. rewrite Hks.
    rewrite (write_rows_ext g' g); [reflexivity|].
    intros k. symmetry. apply get_perm; assumption.
Qed.

Lemma write_output_format_witness :
  NoDup (map fst [(("m2", "b2"), ["v3"]); (("m1", "b1"), ["v1"; "v2"])]) /\
  write_output [(("m1", "b1"), ["v1"; "v2"]); (("m2", "b2"), ["v3"])]
  = write_output [(("m2", "b2"), ["v3"]); (("m1", "b1"), ["v1"; "v2"])].
Proof.
  assert (Hnd : NoDup (map fst [(("m2", "b2"), ["v3"]); (("m1", "b1"), ["v1"; "v2"])])).
  { simpl. constructor; [simpl; intros [H|[]]; discriminate H|].
    constructor; [simpl; tauto|constructor]. }
  split; [exact Hnd|].
  apply (proj2 (write_output_format _ Hnd)). apply perm_swap.
Defined.

Example ex_reparse :
  match write_output [(("m2", "b2"), ["v3"]); (("m1", "b1"), ["v1"; "v2"]); (("m3", "b3"), [])] with
  | Some s => parse_report s
  | None => None
  end
  = Some [(("m1", "b1"), ["v1"; "v2"]); (("m2", "b2"), ["v3"]); (("m3", "b3"), [])].
Proof. reflexivity. Qed.

(* ------------------------------------------------------------------ *)
(** ** Strings: appending, splitting, cutting *)

Lemma string_app_assoc (a b c : string) : (a ++ b) ++ c = a ++ (b ++ c).
Proof. induction a as [|x a IH]; simpl; [reflexivity|]. rewrite IH. reflexivity. Qed.

Lemma has_char_app (c : ascii) (a b : string) :
  has_char c (a ++ b) = has_char c a || has_char c b.
Proof.
  induction a as [|x a IH]; simpl; [reflexivity|].
  rewrite IH. apply orb_assoc.
Qed.

Lemma split_on_app (c : ascii) (s1 s2 : string) :
  has_char c s1 = false -> split_on c (s1 ++ String c s2) = s1 :: split_on c s2.
Proof.
  induction s1 as [|d s1 IH]; simpl; intros H.
  - rewrite Ascii.eqb_refl. reflexivity.
  - apply orb_false_iff in H as [Hd H]. rewrite Hd, IH by exact H. reflexivity.
Qed.

Lemma split_on_none (c : ascii) (s : string) :
  has_char c s = false -> split_on c s = [s].
Proof.
  induction s as [|d s IH]; simpl; intros H; [reflexivity|].
  apply orb_false_iff in H as [Hd H]. rewrite Hd, IH by exact H. reflexivity.
Qed.

Lemma break_at_app (c : ascii) (s1 s2 : string) :
  has_char c s1 = false -> break_at c (s1 ++ String c s2) = Some (s1, s2).
Proof.
  induction s1 as [|d s1 IH]; simpl; intros H.
  - rewrite Ascii.eqb_refl. reflexivity.
  - apply orb_false_iff in H as [Hd H]. rewrite Hd, IH by exact H. reflexivity.
Qed.

Lemma strip_close_close (s : string) : strip_close (s ++ "]") = Some s.
Proof.
  induction s as [|d s IH]; [reflexivity|].
  cbn [append strip_close]. rewrite IH.
  destruct s; reflexivity.
Qed.

Lemma has_char_concat (c : ascii) (sep : string) (vs : list string) :
  has_char c sep = false -> Forall (fun v => has_char c v = false) vs ->
  has_char c (String.concat sep vs) = false.
Proof.
  intros Hsep. induction 1 as [|v vs Hv Hvs IH]; [reflexivity|].
  destruct vs as [|w ws]; [exact Hv|].
  change (String.concat sep (v :: w :: ws)) with (v ++ sep ++ String.concat sep (w :: ws)).
  rewrite !has_char_app, Hv, Hsep, IH. reflexivity.
Qed.

Lemma split_on_concat (v : string) (vs : list string) :
  Forall (fun v => has_char "," v = false) (v :: vs) ->
  split_on "," (String.concat ", " (v :: vs)) = v :: map (String " ") vs.
Proof.
  revert v. induction vs as [|w ws IH]; intros v H; inversion H as [|? ? Hv Hvs]; subst.
  - apply split_on_none. exact Hv.
  - change (String.concat ", " (v :: w :: ws))
      with (v ++ String "," (String " " (String.concat ", " (w :: ws)))).
    rewrite split_on_app by exact Hv. f_equal.
    cbn [split_on]. rewrite (IH w Hvs). reflexivity.
Qed.

Lemma parse_visits_concat (vs : list string) :
  Forall (fun v => no_sep v = true /\ v <> EmptyString) vs ->
  parse_visits (String.concat ", " vs) = vs.
Proof.
  intros H. destruct vs as [|v vs]; [reflexivity|].
  assert (Hc : Forall (fun v => has_char "," v = false) (v :: vs)).
  { eapply Forall_impl; [|exact H]. intros x [Hx _].
    unfold no_sep in Hx. apply andb_true_iff in Hx as [Hx _]. apply negb_true_iff, Hx. }
  inversion H as [|? ? [_ Hne] _]; subst.
  unfold parse_visits.
  assert (exists x t, String.concat ", " (v :: vs) = String x t) as (x & t & E).
  { destruct v as [|x t]; [contradiction|].
    destruct vs; [exists x, t; reflexivity|].
    exists x, (t ++ ", " ++ String.concat ", " (s :: vs)). reflexivity. }
  rewrite E. rewrite <- E. rewrite split_on_concat by exact Hc.
  f_equal. rewrite map_map. apply map_id.
Qed.

Lemma no_sep_comma (s : string) : no_sep s = true -> has_char "," s = false.
Proof. unfold no_sep. intros H. apply andb_true_iff in H as [H _]. apply negb_true_iff, H. Qed.

Lemma no_sep_nl (s : string) : no_sep s = true -> has_char nl_char s = false.
Proof. unfold no_sep. intros H. apply andb_true_iff in H as [_ H]. apply negb_true_iff, H. Qed.

(** A rendered row is its line followed by a newline. *)
Lemma render_row_line (k : GroupKey) (vs : list string) :
  render_row k vs
  = (fst k ++ String "," (snd k ++ String "," (String "[" (String.concat ", " vs ++ "]"))))
      ++ String nl_char EmptyString.
Proof.
  unfold render_row. symmetry.
  repeat (rewrite string_app_assoc; cbn [append]). reflexivity.
Qed.

Lemma parse_row_line (k : GroupKey) (vs : list string) :
  clean_entry (k, vs) ->
  parse_row (fst k ++ String "," (snd k ++ String "," (String "[" (String.concat ", " vs ++ "]"))))
  = Some (k, vs).
Proof.
  intros (Hm & Hb & Hvs). simpl in Hm, Hb, Hvs.
  unfold parse_row.
  rewrite break_at_app by (apply no_sep_comma; exact Hm).
  rewrite break_at_app by (apply no_sep_comma; exact Hb).
  simpl (Ascii.eqb "[" "["). cbv iota.
  rewrite strip_close_close, parse_visits_concat by exact Hvs.
  destruct k; reflexivity.
Qed.

Lemma line_no_nl (k : GroupKey) (vs : list string) :
  clean_entry (k, vs) ->
  has_char nl_char
    (fst k ++ String "," (snd k ++ String "," (String "[" (String.concat ", " vs ++ "]"))))
  = false.
Proof.
  intros (Hm & Hb & Hvs). simpl in Hm, Hb, Hvs.
  rewrite has_char_app, (no_sep_nl _ Hm). simpl.
  rewrite has_char_app, (no_sep_nl _ Hb). simpl.
  rewrite has_char_app, has_char_concat; [reflexivity|reflexivity|].
  eapply Forall_impl; [|exact Hvs]. intros v [Hv _]. apply no_sep_nl, Hv.
Qed.

Lemma parse_lines_cons (l : string) (ls : list string) :
  l <> EmptyString ->
  parse_lines (l :: ls)
  = match parse_row l, parse_lines ls with
    | Some r, Some rs => Some (r :: rs)
    | _, _ => None
    end.
Proof. destruct l; [contradiction|reflexivity]. Qed.

Lemma parse_concat_rows (rows : Grouped) :
  Forall clean_entry rows ->
  parse_lines (split_on nl_char (concat_rows rows)) = Some rows.
Proof.
  induction 1 as [|[k vs] rows He Hrows IH]; [reflexivity|].
  cbn [concat_rows fold_right fst snd].
  rewrite render_row_line, string_app_assoc.
  cbn [append].
  rewrite split_on_app by (apply line_no_nl; exact He).
  rewrite parse_lines_cons.
  - rewrite parse_row_line by exact He. fold (concat_rows rows). rewrite IH. reflexivity.
  - destruct (fst k); discriminate.
Qed.

(* ------------------------------------------------------------------ *)
(** ** Re-reading the report *)

(** C4 (as stated, refuted): the report does not determine the grouping.
    A visit_id ["v1, v2"] (a CSV field may hold a comma) renders exactly as
    the two visit_ids ["v1"] and ["v2"], so no reader of the report can give
    back both groupings; the reader above returns the second one for both. *)
Lemma C4_report_not_injective :
  write_output [(("m1", "b1"), ["v1, v2"])] = write_output [(("m1", "b1"), ["v1"; "v2"])] /\
  ([(("m1", "b1"), ["v1, v2"])] : Grouped) <> [(("m1", "b1"), ["v1"; "v2"])] /\
  match write_output [(("m1", "b1"), ["v1, v2"])] with
  | Some s => parse_report s
  | None => None
  end = Some [(("m1", "b1"), ["v1"; "v2"])].
Proof. split; [reflexivity|split; [discriminate|reflexivity]]. Qed.

(** C4 (amended): for a dict whose member_ids and barcodes contain no comma
    and no newline and whose visit_ids are non-empty and contain no comma
    and no newline, reading back the report written by [write_output] gives
    the entries of the dict: the same (member_id, barcode) keys, each with
    the same visit_id list in the same order. *)
Theorem write_output_reparse (g : Grouped) :
  NoDup (map fst g) -> Forall clean_entry g ->
  exists rows : Grouped,
    Permutation rows g /\
    match write_output g with Some s => parse_report s | None => None end = Some rows.
Proof.
  intros Hnd Hc. exists (sorted entry_lt g). split; [apply sorted_perm|].
  rewrite write_output_eq by exact Hnd.
  unfold parse_report.
  change ("member_id,barcode,visits" ++ nl ++ concat_rows (sorted entry_lt g))
    with ("member_id,barcode,visits" ++ String nl_char (concat_rows (sorted entry_lt g))).
  rewrite split_on_app by reflexivity.
  rewrite String.eqb_refl. apply parse_concat_rows.
  apply Forall_forall. intros e He. rewrite Forall_forall in Hc. apply Hc.
  apply (Permutation_in _ (sorted_perm entry_lt g)). exact He.
Qed.

Lemma write_output_reparse_witness :
  NoDup (map fst [(("m2", "b2"), ["v3"]); (("m1", "b1"), ["v1"; "v2"])]) /\
  Forall clean_entry [(("m2", "b2"), ["v3"]); (("m1", "b1"), ["v1"; "v2"])] /\
  exists rows : Grouped,
    Permutation rows [(("m2", "b2"), ["v3"]); (("m1", "b1"), ["v1"; "v2"])] /\
    match write_output [(("m2", "b2"), ["v3"]); (("m1", "b1"), ["v1"; "v2"])] with
    | Some s => parse_report s
    | None => None
    end = Some rows.
Proof.
  assert (Hnd : NoDup (map fst [(("m2", "b2"), ["v3"]); (("m1", "b1"), ["v1"; "v2"])])).
  { simpl. constructor; [simpl; intros [H|[]]; discriminate H|].
    constructor; [simpl; tauto|constructor]. }
  assert (Hc : Forall clean_entry [(("m2", "b2"), ["v3"]); (("m1", "b1"), ["v1"; "v2"])]).
  { unfold clean_entry. repeat (constructor || discriminate). }
  split; [exact Hnd|]. split; [exact Hc|].
  exact (write_output_reparse _ Hnd Hc).
Defined.

(* ------------------------------------------------------------------ *)
(** ** The loaders *)

Lemma get_app_single {V} (b k : string) (v : V) (d : list (string * V)) :
  Dict.get String.eqb b (d ++ [(k, v)])%list
  = match Dict.get String.eqb b d with
    | Some w => Some w
    | None => if String.eqb b k then Some v else None
    end.
Proof.
  induction d as [|[k' w] d IH]; simpl; [reflexivity|].
  destruct (String.eqb b k'); [reflexivity|exact IH].
Qed.

Lemma load_members_fold (rows : list MemberRow) (acc : Members) (b : string) :
  Dict.get String.eqb b (fold_left load_members_step rows acc)
  = match Dict.get String.eqb b acc with
    | Some m => Some m
    | None => first_member rows b
    end.
Proof.
  revert acc. induction rows as [|r rs IH]; intros acc; cbn [fold_left first_member].
  - destruct (Dict.get String.eqb b acc); reflexivity.
  - rewrite IH. unfold load_members_step.
    set (mid := strip (or_empty (mr_member_id r))).
    set (bc := strip (or_empty (mr_barcode r))).
    destruct (is_empty mid) eqn:Em, (is_empty bc) eqn:Eb; simpl;
      try (destruct (Dict.get String.eqb b acc); reflexivity).
    unfold Dict.mem.
    destruct (String.eqb_spec bc b) as [<-|Hne].
    + destruct (Dict.get String.eqb bc acc) eqn:Eg; cbv iota; rewrite ?get_app_single, Eg;
        [reflexivity|].
      rewrite String.eqb_refl. reflexivity.
    + destruct (Dict.get String.eqb bc acc); cbv iota; [reflexivity|].
      rewrite get_app_single.
      destruct (String.eqb_spec b bc); [congruence|].
      destruct (Dict.get String.eqb b acc); reflexivity.
Qed.

Lemma load_members_fold_nodup (rows : list MemberRow) (acc : Members) :
  NoDup (map fst acc) -> NoDup (map fst (fold_left load_members_step rows acc)).
Proof.
  revert acc. induction rows as [|r rs IH]; intros acc H; cbn [fold_left]; [exact H|].
  apply IH. unfold load_members_step.
  destruct (_ || _); [exact H|].
  destruct (Dict.mem String.eqb _ acc) eqn:Em; [exact H|].
  rewrite map_app. apply NoDup_app; [exact H|repeat constructor; simpl; tauto|].
  intros x Hx [Hx'|[]]. simpl in Hx'. subst x.
  apply in_map_iff in Hx as [[k v] [Hk Hin]]. simpl in Hk. subst k.
  apply (in_get _ _ _ H) in Hin. unfold Dict.mem in Em. rewrite Hin in Em. discriminate.
Qed.

(** C6 (as stated, refuted): the first row with trimmed barcode ["b1"] has
    an empty member_id; it is rejected as a missing field, and the mapping
    binds ["b1"] to the member_id of the second row, which is kept. *)
Lemma C6_first_row_rejected :
  strip (or_empty (Some " b1 ")) = "b1" /\
  strip (or_empty (Some "  ")) = "" /\
  load_members [ {| mr_member_id := Some "  "; mr_barcode := Some " b1 " |};
                 {| mr_member_id := Some "m2"; mr_barcode := Some "b1" |} ]
  = [("b1", "m2")].
Proof. split; [reflexivity|split; reflexivity]. Qed.

(** C6 (amended): [load_members] is a function of its rows that never
    fails; every barcode appears at most once in the mapping, and each
    barcode is bound to the member_id of the first row that has both
    fields non-empty after trimming and that barcode; later rows with that
    barcode are dropped. *)
Theorem load_members_first_valid (rows : list MemberRow) :
  NoDup (map fst (load_members rows)) /\
  forall b : string, Dict.get String.eqb b (load_members rows) = first_member rows b.
Proof.
  split.
  - apply load_members_fold_nodup. constructor.
  - intros b. unfold load_members. rewrite load_members_fold. reflexivity.
Qed.

(** [load_members] only binds non-empty member_ids. *)
Lemma load_members_nonempty (rows : list MemberRow) :
  members_nonempty (load_members rows).
Proof.
  unfold load_members, members_nonempty.
  assert (H : Forall (fun e : string * string => is_empty (snd e) = false) ([] : Members))
    by constructor.
  revert H. generalize ([] : Members) as acc.
  induction rows as [|r rs IH]; intros acc H; cbn [fold_left]; [exact H|].
  apply IH. unfold load_members_step.
  destruct (is_empty (strip (or_empty (mr_member_id r)))) eqn:Em; [exact H|].
  destruct (is_empty (strip (or_empty (mr_barcode r)))); [exact H|]. simpl.
  destruct (Dict.mem String.eqb _ acc); [exact H|].
  apply Forall_app. split; [exact H|]. constructor; [exact Em|constructor].
Qed.

Lemma lstrip_blank (s : string) : blank s = true -> lstrip s = EmptyString.
Proof.
  induction s as [|c s IH]; simpl; [reflexivity|].
  intros H. apply andb_true_iff in H as [Hc Hs]. rewrite Hc. apply IH, Hs.
Qed.

Lemma lstrip_nonblank (s : string) :
  blank s = false -> exists c t, lstrip s = String c t /\ is_space c = false.
Proof.
  induction s as [|c s IH]; simpl; [discriminate|].
  destruct (is_space c) eqn:Hc; simpl.
  - exact IH.
  - intros _. exists c, s. split; [reflexivity|exact Hc].
Qed.

(** [strip s] is empty exactly when [s] is empty or whitespace only. *)
Lemma strip_empty_blank (s : string) : is_empty (strip s) = blank s.
Proof.
  unfold strip. destruct (blank s) eqn:Hb.
  - rewrite lstrip_blank by exact Hb. reflexivity.
  - destruct (lstrip_nonblank s Hb) as (c & t & -> & Hc).
    simpl. rewrite Hc. reflexivity.
Qed.

Lemma load_visits_fold (rows : list VisitRow) (kept : list VisitRow) (acc : list Visit)
  (P : VisitRow -> Visit -> Prop) :
  (forall r, blank (or_empty (vr_visit_id r)) = false ->
   P r {| visit_id := strip (or_empty (vr_visit_id r));
          barcode := strip (or_empty (vr_barcode r));
          reservation_id :=
            if is_empty (strip (or_empty (vr_reservation_id r))) then None
            else Some (strip (or_empty (vr_reservation_id r))) |}) ->
  Forall2 P kept acc ->
  Forall2 P (kept ++ filter (fun r => negb (blank (or_empty (vr_visit_id r)))) rows)%list
            (fold_left load_visits_step rows acc).
Proof.
  intros HP. revert kept acc.
  induction rows as [|r rs IH]; intros kept acc H; cbn [fold_left filter].
  - rewrite app_nil_r. exact H.
  - unfold load_visits_step at 2. rewrite strip_empty_blank.
    destruct (blank (or_empty (vr_visit_id r))) eqn:Hb; simpl.
    + apply IH, H.
    + replace (kept ++ r :: filter _ rs)%list
        with ((kept ++ [r]) ++ filter (fun r => negb (blank (or_empty (vr_visit_id r)))) rs)%list
        by (rewrite <- app_assoc; reflexivity).
      apply IH. apply Forall2_app; [exact H|].
      constructor; [apply HP, Hb|constructor].
Qed.

(** C7: the records of [load_visits] are, in order, one per row whose
    visit_id is not empty or whitespace only (the other rows never appear);
    each carries the trimmed, non-empty visit_id, the trimmed barcode, and
    the absent reservation ([None]) exactly when the reservation_id field
    was missing, empty or whitespace only (its trimmed value otherwise). *)
Theorem load_visits_records (rows : list VisitRow) :
  Forall2
    (fun r v =>
       visit_id v = strip (or_empty (vr_visit_id r)) /\ visit_id v <> EmptyString /\
       barcode v = strip (or_empty (vr_barcode r)) /\
       reservation_id v =
         (if blank (or_empty (vr_reservation_id r)) then None
          else Some (strip (or_empty (vr_reservation_id r)))))
    (filter (fun r => negb (blank (or_empty (vr_visit_id r)))) rows)
    (load_visits rows).
Proof.
  apply (load_visits_fold rows [] []); [|constructor].
  intros r Hb. simpl. rewrite strip_empty_blank.
  split; [reflexivity|]. split.
  - intros E. pose proof (strip_empty_blank (or_empty (vr_visit_id r))) as H.
    rewrite E, Hb in H. discriminate.
  - split; reflexivity.
Qed.

(* ------------------------------------------------------------------ *)
(** ** Further properties: trimming and the loaders *)

Lemma rstrip_idem (s : string) : rstrip (rstrip s) = rstrip s.
Proof.
  induction s as [|c s IH]; simpl; [reflexivity|].
  destruct (is_space c && is_empty (rstrip s)) eqn:E; [reflexivity|].
  simpl. rewrite IH, E. reflexivity.
Qed.

Lemma rstrip_nonspace (c : ascii) (t : string) :
  is_space c = false -> rstrip (String c t) = String c (rstrip t).
Proof. intros Hc. simpl. rewrite Hc. reflexivity. Qed.

Lemma lstrip_nonspace (c : ascii) (t : string) :
  is_space c = false -> lstrip (String c t) = String c t.
Proof. intros Hc. simpl. rewrite Hc. reflexivity. Qed.

Lemma strip_idem (s : string) : strip (strip s) = strip s.
Proof.
  unfold strip. destruct (blank s) eqn:Hb.
  - rewrite (lstrip_blank s Hb). reflexivity.
  - destruct (lstrip_nonblank s Hb) as (c & t & -> & Hc).
    rewrite rstrip_nonspace by exact Hc. rewrite lstrip_nonspace by exact Hc.
    rewrite rstrip_nonspace by exact Hc. rewrite rstrip_idem. reflexivity.
Qed.

Lemma mem_false_not_in {V} (k : string) (d : list (string * V)) :
  Dict.mem String.eqb k d = false <-> ~ In k (map fst d).
Proof.
  unfold Dict.mem. induction d as [|[k' v] d IH]; simpl; [tauto|].
  destruct (String.eqb_spec k k') as [->|Hne].
  - split; [discriminate|intros H; exfalso; apply H; left; reflexivity].
  - rewrite IH. split; [intros H [H'|H']; [congruence|tauto]|tauto].
Qed.

Lemma load_members_fold_clean (rows : list MemberRow) (acc : Members) :
  Forall member_entry_clean acc ->
  Forall member_entry_clean (fold_left load_members_step rows acc).
Proof.
  revert acc. induction rows as [|r rs IH]; intros acc H; cbn [fold_left]; [exact H|].
  apply IH. unfold load_members_step. cbv zeta.
  destruct (is_empty (strip (or_empty (mr_member_id r)))) eqn:Em; [exact H|].
  destruct (is_empty (strip (or_empty (mr_barcode r)))) eqn:Eb; [exact H|]. simpl.
  destruct (Dict.mem String.eqb _ acc); [exact H|].
  apply Forall_app. split; [exact H|]. constructor; [|constructor].
  unfold member_entry_clean; simpl. rewrite !strip_idem. tauto.
Qed.

Lemma load_members_step_clean (acc : Members) (e : string * string) :
  member_entry_clean e -> ~ In (fst e) (map fst acc) ->
  load_members_step acc {| mr_member_id := Some (snd e); mr_barcode := Some (fst e) |}
  = (acc ++ [e])%list.
Proof.
  destruct e as [b mid]. unfold member_entry_clean, load_members_step; simpl.
  intros (H1 & H2 & H3 & H4) Hn.
  rewrite H1, H3, H2, H4. simpl.
  apply mem_false_not_in in Hn. rewrite Hn. reflexivity.
Qed.

Lemma load_members_replay (m acc : Members) :
  NoDup (map fst m) -> Forall member_entry_clean m ->
  (forall k, In k (map fst m) -> ~ In k (map fst acc)) ->
  fold_left load_members_step (rows_of_members m) acc = (acc ++ m)%list.
Proof.
  unfold rows_of_members. revert acc. induction m as [|e m IH]; intros acc Hnd Hc Hdis; cbn [map fold_left].
  - rewrite app_nil_r. reflexivity.
  - inversion Hnd as [|? ? Hk Hnd']; subst. inversion Hc as [|? ? He Hc']; subst.
    rewrite load_members_step_clean by (exact He || (apply Hdis; left; reflexivity)).
    rewrite (IH (acc ++ [e])%list Hnd' Hc').
    + rewrite <- app_assoc. reflexivity.
    + intros k Hin. rewrite map_app, in_app_iff. intros [H|[H|[]]].
      * apply (Hdis k); [right; exact Hin|exact H].
      * simpl in H. subst. contradiction.
Qed.

Lemma load_visits_fold_clean (rows : list VisitRow) (acc : list Visit) :
  Forall visit_clean acc -> Forall visit_clean (fold_left load_visits_step rows acc).
Proof.
  revert acc. induction rows as [|r rs IH]; intros acc H; cbn [fold_left]; [exact H|].
  apply IH. unfold load_visits_step. cbv zeta.
  destruct (is_empty (strip (or_empty (vr_visit_id r)))) eqn:Ev; [exact H|].
  apply Forall_app. split; [exact H|]. constructor; [|constructor].
  unfold visit_clean; cbn [visit_id barcode reservation_id].
  rewrite !strip_idem. split; [reflexivity|split; [exact Ev|split; [reflexivity|]]].
  destruct (is_empty (strip (or_empty (vr_reservation_id r)))) eqn:Er; [exact I|].
  split; [apply strip_idem|exact Er].
Qed.

Lemma load_visits_step_clean (acc : list Visit) (v : Visit) :
  visit_clean v ->
  load_visits_step acc
    {| vr_visit_id := Some (visit_id v); vr_barcode := Some (barcode v);
       vr_reservation_id := Some (or_empty (reservation_id v)) |}
  = (acc ++ [v])%list.
Proof.
  destruct v as [vid bc res]. unfold visit_clean, load_visits_step.
  cbn [visit_id barcode reservation_id vr_visit_id vr_barcode vr_reservation_id or_empty].
  intros (H1 & H2 & H3 & H4). rewrite H1, H3, H2.
  destruct res as [r|].
  - destruct H4 as [H4 H5]. cbn [or_empty]. rewrite H4, H5. reflexivity.
  - reflexivity.
Qed.

Lemma load_visits_replay (vs acc : list Visit) :
  Forall visit_clean vs ->
  fold_left load_visits_step (rows_of_visits vs) acc = (acc ++ vs)%list.
Proof.
  unfold rows_of_visits. revert acc. induction vs as [|v vs IH]; intros acc H; cbn [map fold_left].
  - rewrite app_nil_r. reflexivity.
  - inversion H as [|? ? Hv Hvs]; subst.
    rewrite load_visits_step_clean by exact Hv.
    rewrite (IH _ Hvs). rewrite <- app_assoc. reflexivity.
Qed.

(** [load_members] keeps only entries whose barcode and member_id are both
    non-empty and trimmed. *)
Theorem load_members_clean (rows : list MemberRow) :
  Forall member_entry_clean (load_members rows).
Proof. apply load_members_fold_clean. constructor. Qed.

(** Writing the mapping of [load_members] back as member rows and loading
    them again gives the same mapping, in the same order. *)
Theorem load_members_roundtrip (rows : list MemberRow) :
  load_members (rows_of_members (load_members rows)) = load_members rows.
Proof.
  unfold load_members at 1.
  exact (load_members_replay (load_members rows) []
           (load_members_fold_nodup rows [] (NoDup_nil _))
           (load_members_fold_clean rows [] (Forall_nil _))
           (fun _ _ H => H)).
Qed.

(** Writing the visits of [load_visits] back as visit rows (an absent
    reservation as an empty cell) and loading them again gives the same
    visits, in the same order. *)
Theorem load_visits_roundtrip (rows : list VisitRow) :
  load_visits (rows_of_visits (load_visits rows)) = load_visits rows.
Proof.
  unfold load_visits at 1.
  exact (load_visits_replay (load_visits rows) []
           (load_visits_fold_clean rows [] (Forall_nil _))).
Qed.

(* ------------------------------------------------------------------ *)
(** ** Further properties: the groups of [validate_and_group_visits] *)

Lemma upd_keys_by {K V} (keqb : K -> K -> bool) (k : K) (dflt : V) (f : V -> V)
  (d : list (K * V)) :
  map fst (Dict.upd keqb k dflt f d)
  = if existsb (keqb k) (map fst d) then map fst d else (map fst d ++ [k])%list.
Proof.
  induction d as [|[k' v] d IH]; simpl; [reflexivity|].
  destruct (keqb k k'); simpl; [reflexivity|].
  rewrite IH. destruct (existsb (keqb k) (map fst d)); reflexivity.
Qed.

Lemma upd_nodup_by {K V} (keqb : K -> K -> bool) (Hk : forall a b, keqb a b = true <-> a = b)
  (k : K) (dflt : V) (f : V -> V) (d : list (K * V)) :
  NoDup (map fst d) -> NoDup (map fst (Dict.upd keqb k dflt f d)).
Proof.
  intros Hnd. rewrite upd_keys_by.
  destruct (existsb (keqb k) (map fst d)) eqn:E; [exact Hnd|].
  apply NoDup_app; [exact Hnd|repeat constructor; simpl; tauto|].
  intros x Hx [->|[]].
  assert (existsb (keqb x) (map fst d) = true) as E'
    by (apply existsb_exists; exists x; split; [exact Hx|apply Hk; reflexivity]).
  congruence.
Qed.

Lemma get_upd_by {K V} (keqb : K -> K -> bool) (Hk : forall a b, keqb a b = true <-> a = b)
  (m k : K) (dflt : V) (f : V -> V) (d : list (K * V)) :
  Dict.get keqb m (Dict.upd keqb k dflt f d)
  = if keqb m k
    then Some (f (match Dict.get keqb k d with Some v => v | None => dflt end))
    else Dict.get keqb m d.
Proof.
  induction d as [|[k' v] d IH]; simpl.
  - destruct (keqb m k); reflexivity.
  - destruct (keqb k k') eqn:E1; simpl.
    + apply Hk in E1. subst k'. destruct (keqb m k); reflexivity.
    + rewrite IH. destruct (keqb m k) eqn:E2, (keqb m k') eqn:E3; try reflexivity.
      apply Hk in E2, E3. subst. rewrite (proj2 (Hk k' k') eq_refl) in E1. discriminate.
Qed.

Lemma group_of_cons (members : Members) (k : GroupKey) (v : Visit) (vs : list Visit) :
  group_of members k (v :: vs)
  = if accepted members v && key_eqb (member_of members v, barcode v) k
    then visit_id v :: group_of members k vs
    else group_of members k vs.
Proof. unfold group_of; simpl. destruct (_ && _); reflexivity. Qed.

Lemma validate_step_accepted_key (members : Members) (g : Grouped) (w : nat) (v : Visit) :
  accepted members v = true ->
  validate_step members (g, w) v =
  (Dict.upd key_eqb (member_of members v, barcode v) [] (fun l => (l ++ [visit_id v])%list) g,
   if is_walk_in v then S w else w).
Proof.
  unfold accepted, validate_step, is_walk_in, member_of.
  destruct (is_empty (barcode v)); simpl; [discriminate|].
  destruct (Dict.get String.eqb (barcode v) members) as [mid|]; [|discriminate].
  intros Hm. apply negb_true_iff in Hm. rewrite Hm.
  destruct (reservation_id v); reflexivity.
Qed.

Lemma accepted_key_ok (members : Members) (v : Visit) :
  accepted members v = true -> group_key_ok members (member_of members v, barcode v).
Proof.
  unfold accepted, group_key_ok, member_of; simpl.
  destruct (is_empty (barcode v)) eqn:Eb; simpl; [discriminate|].
  destruct (Dict.get String.eqb (barcode v) members) as [mid|]; [|discriminate].
  intros Hm. apply negb_true_iff in Hm. tauto.
Qed.

Lemma validate_fold_get (members : Members) (visits : list Visit) (g : Grouped) (w : nat)
  (k : GroupKey) :
  Dict.get key_eqb k (fst (fold_left (validate_step members) visits (g, w)))
  = match Dict.get key_eqb k g with
    | Some l => Some (l ++ group_of members k visits)%list
    | None => match group_of members k visits with [] => None | l => Some l end
    end.
Proof.
  revert g w. induction visits as [|v vs IH]; intros g w; cbn [fold_left].
  - unfold group_of; simpl. destruct (Dict.get key_eqb k g); [rewrite app_nil_r|]; reflexivity.
  - rewrite group_of_cons.
    destruct (accepted members v) eqn:Ha; cbn [andb].
    + rewrite (validate_step_accepted_key members g w v Ha). rewrite IH.
      rewrite (get_upd_by _ key_eqb_spec).
      destruct (key_eqb k (member_of members v, barcode v)) eqn:E1.
      * apply key_eqb_spec in E1. subst k.
        rewrite (proj2 (key_eqb_spec _ _) eq_refl).
        unfold Grouped, GroupKey in *.
        destruct (Dict.get key_eqb (member_of members v, barcode v) g); simpl;
          [rewrite <- app_assoc|]; reflexivity.
      * destruct (key_eqb (member_of members v, barcode v) k) eqn:E2; [|reflexivity].
        apply key_eqb_spec in E2. subst k.
        rewrite (proj2 (key_eqb_spec _ _) eq_refl) in E1. discriminate.
    + rewrite validate_step_rejected by exact Ha. apply IH.
Qed.

Lemma validate_fold_nodup (members : Members) (visits : list Visit) (st : Grouped * nat) :
  NoDup (map fst (fst st)) ->
  NoDup (map fst (fst (fold_left (validate_step members) visits st))).
Proof.
  revert st. induction visits as [|v vs IH]; intros [g w] H; cbn [fold_left]; [exact H|].
  apply IH. destruct (accepted members v) eqn:Ha.
  - rewrite (validate_step_accepted_key members g w v Ha).
    apply (upd_nodup_by _ key_eqb_spec). exact H.
  - rewrite validate_step_rejected by exact Ha. exact H.
Qed.

Lemma validate_fold_keys_ok (members : Members) (visits : list Visit) (st : Grouped * nat) :
  Forall (group_key_ok members) (map fst (fst st)) ->
  Forall (group_key_ok members) (map fst (fst (fold_left (validate_step members) visits st))).
Proof.
  revert st. induction visits as [|v vs IH]; intros [g w] H; cbn [fold_left]; [exact H|].
  apply IH. destruct (accepted members v) eqn:Ha.
  - rewrite (validate_step_accepted_key members g w v Ha). cbn [fst].
    rewrite upd_keys_by. destruct (existsb _ _); [exact H|].
    apply Forall_app. split; [exact H|].
    constructor; [apply accepted_key_ok, Ha|constructor].
  - rewrite validate_step_rejected by exact Ha. exact H.
Qed.

Lemma validate_fold_filter (members : Members) (visits : list Visit) (st : Grouped * nat) :
  fold_left (validate_step members) visits st
  = fold_left (validate_step members) (filter (accepted members) visits) st.
Proof.
  revert st. induction visits as [|v vs IH]; intros st; [reflexivity|].
  cbn [filter]. destruct (accepted members v) eqn:Ha; cbn [fold_left].
  - apply IH.
  - rewrite validate_step_rejected by exact Ha. apply IH.
Qed.

(** The grouping is a dict (no key twice), and the group of each key
    [(member_id, barcode)] holds, in input order, the visit_ids of the
    accepted visits with that barcode whose barcode maps to that
    member_id; a key with no such visit is absent. *)
Theorem validate_groups_content (members : Members) (visits : list Visit) :
  NoDup (map fst (fst (validate_and_group_visits members visits))) /\
  forall k : GroupKey,
    Dict.get key_eqb k (fst (validate_and_group_visits members visits))
    = match group_of members k visits with [] => None | l => Some l end.
Proof.
  split.
  - apply validate_fold_nodup. constructor.
  - intros k. unfold validate_and_group_visits. rewrite validate_fold_get. reflexivity.
Qed.

(** Every key [(member_id, barcode)] of the grouping has a non-empty
    member_id and barcode, and the mapping binds that barcode to that
    member_id. *)
Theorem validate_keys_consistent (members : Members) (visits : list Visit) :
  Forall (group_key_ok members) (map fst (fst (validate_and_group_visits members visits))).
Proof. apply validate_fold_keys_ok. constructor. Qed.

(** Rejected visits have no effect: grouping the visits gives the same
    result as grouping only the accepted ones. *)
Theorem validate_ignores_rejected (members : Members) (visits : list Visit) :
  validate_and_group_visits members visits
  = validate_and_group_visits members (filter (accepted members) visits).
Proof. apply validate_fold_filter. Qed.

(* ------------------------------------------------------------------ *)
(** ** Further properties: the ranking of [build_summary] *)

Lemma total_len_cons (e : GroupKey * list string) (g : Grouped) :
  total_len (e :: g) = (length (snd e) + total_len g)%nat.
Proof. reflexivity. Qed.

Lemma upd_count_sum (k : string) (c : nat) (d : list (string * nat)) :
  list_sum (map snd (Dict.upd String.eqb k 0%nat (fun x => x + c)%nat d))
  = (list_sum (map snd d) + c)%nat.
Proof.
  induction d as [|[k' v] d IH]; simpl; [lia|].
  destruct (String.eqb k k'); simpl; [lia|]. rewrite IH. lia.
Qed.

Lemma count_fold_sum (g : Grouped) (acc : list (string * nat)) :
  list_sum (map snd (fold_left count_step g acc)) = (list_sum (map snd acc) + total_len g)%nat.
Proof.
  revert acc. induction g as [|e g IH]; intros acc; cbn [fold_left].
  - simpl. lia.
  - rewrite IH. unfold count_step. rewrite upd_count_sum, total_len_cons. lia.
Qed.

Lemma list_sum_perm (l1 l2 : list nat) : Permutation l1 l2 -> list_sum l1 = list_sum l2.
Proof. induction 1; simpl; lia. Qed.

Lemma list_sum_firstn_le (n : nat) (l : list nat) : (list_sum (firstn n l) <= list_sum l)%nat.
Proof.
  revert n. induction l as [|x l IH]; intros [|n]; simpl; try lia.
  specialize (IH n). lia.
Qed.

Lemma vpm_keys_perm (g : Grouped) :
  Permutation (map fst (fold_left count_step g [])) (distinct_members g).
Proof.
  assert (Hnd : NoDup (map fst (fold_left count_step g []))) by
    (apply count_fold_nodup; constructor).
  apply NoDup_Permutation; [exact Hnd|apply NoDup_nodup|].
  intros m. unfold distinct_members. rewrite nodup_In.
  pose proof (count_fold_get g [] m) as Hg. cbn [Dict.get] in Hg.
  split.
  - intros H. apply in_map_iff in H as [[m' c] [Hm Hin]]. simpl in Hm. subst m'.
    apply (in_get _ _ _ Hnd) in Hin. rewrite Hin in Hg.
    destruct (member_seen g m) eqn:Es; [|discriminate].
    unfold member_seen in Es. apply existsb_exists in Es as [e [He Heq]].
    apply String.eqb_eq in Heq. apply in_map_iff. exists e. split; assumption.
  - intros H. apply in_map_iff in H as [e [He Hin]].
    assert (Es : member_seen g m = true)
      by (apply existsb_exists; exists e; split; [exact Hin|apply String.eqb_eq; exact He]).
    rewrite Es in Hg. apply in_map_iff. exists (m, member_total g m).
    split; [reflexivity|]. apply (in_get _ _ _ Hnd). exact Hg.
Qed.

Lemma ranking_length (g : Grouped) :
  length (sorted rank_lt (fold_left count_step g [])) = length (distinct_members g).
Proof.
  rewrite (Permutation_length (sorted_perm rank_lt _)).
  rewrite <- (length_map fst). apply Permutation_length, vpm_keys_perm.
Qed.

Lemma ranking_sum (g : Grouped) :
  list_sum (map snd (sorted rank_lt (fold_left count_step g []))) = total_len g.
Proof.
  rewrite (list_sum_perm _ _ (Permutation_map snd (sorted_perm rank_lt _))).
  rewrite count_fold_sum. reflexivity.
Qed.

(** The counts listed in [top_members] never add up to more than
    [total_valid_visits], and add up to exactly it when [top_n] is at least
    the number of distinct members. *)
Theorem build_summary_top_sum (g : Grouped) (w n : nat) :
  (list_sum (map snd (top_members (build_summary g w (Z.of_nat n))))
     <= total_valid_visits (build_summary g w (Z.of_nat n)))%nat /\
  ((length (distinct_members g) <= n)%nat ->
   list_sum (map snd (top_members (build_summary g w (Z.of_nat n))))
   = total_valid_visits (build_summary g w (Z.of_nat n))).
Proof.
  rewrite build_summary_top, build_summary_total. unfold print_top_members, slice_to.
  replace (0 <=? Z.of_nat n)%Z with true by (symmetry; apply Z.leb_le; lia).
  rewrite Nat2Z.id. rewrite <- ranking_sum, <- firstn_map. split.
  - apply list_sum_firstn_le.
  - intros Hn. rewrite firstn_all2; [reflexivity|].
    rewrite length_map, ranking_length. exact Hn.
Qed.

Lemma build_summary_top_sum_witness :
  (length (distinct_members [(("m1", "b1"), ["v1"; "v2"]); (("m2", "b2"), ["v3"]); (("m1", "b3"), ["v4"])]) <= 2)%nat /\
  list_sum (map snd (top_members (build_summary [(("m1", "b1"), ["v1"; "v2"]); (("m2", "b2"), ["v3"]); (("m1", "b3"), ["v4"])] 1 (Z.of_nat 2))))
  = total_valid_visits (build_summary [(("m1", "b1"), ["v1"; "v2"]); (("m2", "b2"), ["v3"]); (("m1", "b3"), ["v4"])] 1 (Z.of_nat 2)).
Proof.
  assert (H : (length (distinct_members [(("m1", "b1"), ["v1"; "v2"]); (("m2", "b2"), ["v3"]); (("m1", "b3"), ["v4"])]) <= 2)%nat)
    by (apply Nat.leb_le; vm_compute; reflexivity).
  split; [exact H|].
  apply (proj2 (build_summary_top_sum [(("m1", "b1"), ["v1"; "v2"]); (("m2", "b2"), ["v3"]); (("m1", "b3"), ["v4"])] 1 2)). exact H.
Defined.

(** The length of [top_members] for any integer [top_n], as Python's
    slice [l[:top_n]] gives it: [min(top_n, M)] for [top_n >= 0], and
    [M - |top_n|] (the last [|top_n|] members dropped) for a negative
    [top_n], where [M] is the number of distinct members. *)
Theorem build_summary_top_length (g : Grouped) (w : nat) (top_n : Z) :
  length (top_members (build_summary g w top_n))
  = if (0 <=? top_n)%Z then Nat.min (Z.to_nat top_n) (length (distinct_members g))
    else (length (distinct_members g) - Z.to_nat (- top_n))%nat.
Proof.
  rewrite build_summary_top. unfold print_top_members, slice_to.
  rewrite ranking_length.
  destruct (0 <=? top_n)%Z; rewrite length_firstn, ?ranking_length; [reflexivity|lia].
Qed.

(** [build_summary] and [print_top_members] rank the members the same way
    for every [top_n]. *)
Theorem build_summary_print_agree (g : Grouped) (w : nat) (top_n : Z) :
  top_members (build_summary g w top_n) = print_top_members g top_n.
Proof.
  unfold build_summary, print_top_members.
  pose proof (summary_fold_counts g [] 0) as H.
  destruct (fold_left summary_step g ([], 0%nat)) as [vpm t]; simpl in *.
  rewrite H. reflexivity.
Qed.

(* ------------------------------------------------------------------ *)
(** ** Further properties: the report writers and [processor.main] *)

Lemma get_in_some_by {K V} (keqb : K -> K -> bool) (Hk : forall a b, keqb a b = true <-> a = b)
  (k : K) (d : list (K * V)) :
  In k (map fst d) -> exists v, Dict.get keqb k d = Some v.
Proof.
  induction d as [|[k' v] d IH]; simpl; [tauto|].
  intros [->|H].
  - exists v. rewrite (proj2 (Hk k k) eq_refl). reflexivity.
  - destruct (keqb k k'); [eexists; reflexivity|apply IH, H].
Qed.

Lemma write_rows_some (g : Grouped) (ks : list GroupKey) :
  (forall k, In k ks -> In k (map fst g)) -> exists s, write_rows g ks = Some s.
Proof.
  induction ks as [|k ks IH]; simpl; intros H; [eexists; reflexivity|].
  destruct (get_in_some_by _ key_eqb_spec k g (H k (or_introl eq_refl))) as [v Hv].
  destruct IH as [s Hs]; [intros k' Hk'; apply H; right; exact Hk'|].
  unfold Grouped, GroupKey in *. rewrite Hv, Hs. eexists; reflexivity.
Qed.

Lemma concat_rows_csv (rows : Grouped) :
  concat_rows rows
  = write_output_csv
      (map (fun e => (fst (fst e), snd (fst e), "[" ++ String.concat ", " (snd e) ++ "]")) rows).
Proof.
  induction rows as [|e rows IH]; [reflexivity|].
  change (concat_rows (e :: rows)) with (render_row (fst e) (snd e) ++ concat_rows rows).
  cbn [map write_output_csv]. rewrite IH. unfold render_row.
  rewrite !string_app_assoc. reflexivity.
Qed.

Lemma build_summary_walk_ins (g : Grouped) (w : nat) (top_n : Z) :
  total_walk_ins (build_summary g w top_n) = w.
Proof.
  unfold build_summary. destruct (fold_left summary_step g ([], 0%nat)). reflexivity.
Qed.

Lemma filter_andb_le {A} (p q : A -> bool) (l : list A) :
  (length (filter (fun x => p x && q x) l) <= length (filter p l))%nat.
Proof.
  induction l as [|x l IH]; simpl; [lia|].
  destruct (p x), (q x); simpl; lia.
Qed.


(** For a dict, the file [write_output] writes is the header followed by
    what [io.write_output_csv] writes for the entries in key order, each
    visit list rendered as ["[v1, v2, ...]"]. *)
Theorem write_output_csv_agree (g : Grouped) :
  NoDup (map fst g) ->
  write_output g
  = Some (header ++
          write_output_csv
            (map (fun e => (fst (fst e), snd (fst e), "[" ++ String.concat ", " (snd e) ++ "]"))
                 (sorted entry_lt g))).
Proof.
  intros Hnd. rewrite (write_output_eq g Hnd), <- concat_rows_csv. reflexivity.
Qed.

Lemma write_output_csv_agree_witness :
  NoDup (map fst [(("m2", "b2"), ["v3"]); (("m1", "b1"), ["v1"; "v2"])]) /\
  write_output [(("m2", "b2"), ["v3"]); (("m1", "b1"), ["v1"; "v2"])]
  = Some (header ++
          write_output_csv
            (map (fun e => (fst (fst e), snd (fst e), "[" ++ String.concat ", " (snd e) ++ "]"))
                 (sorted entry_lt [(("m2", "b2"), ["v3"]); (("m1", "b1"), ["v1"; "v2"])]))).
Proof.
  assert (Hnd : NoDup (map fst [(("m2", "b2"), ["v3"]); (("m1", "b1"), ["v1"; "v2"])])).
  { simpl. constructor; [simpl; intros [H|[]]; discriminate H|].
    constructor; [simpl; tauto|constructor]. }
  split; [exact Hnd|].
  apply (write_output_csv_agree _ Hnd).
Defined.

(** [processor.main]: the report always starts with the header; the
    summary counts, among the loaded visits, those whose barcode is a
    non-empty key of the loaded mapping (and, among them, the walk-ins),
    there are no more walk-ins than valid visits, and the top list has at
    most five members. *)
Theorem processor_main_outputs (member_rows : list MemberRow) (visit_rows : list VisitRow) :
  let members := load_members member_rows in
  let visits := load_visits visit_rows in
  (exists body, fst (processor_main member_rows visit_rows) = Some (header ++ body)) /\
  total_valid_visits (snd (processor_main member_rows visit_rows))
    = length (filter (barcode_known members) visits) /\
  total_walk_ins (snd (processor_main member_rows visit_rows))
    = length (filter (fun v => barcode_known members v && is_walk_in v) visits) /\
  (total_walk_ins (snd (processor_main member_rows visit_rows))
     <= total_valid_visits (snd (processor_main member_rows visit_rows)))%nat /\
  (length (top_members (snd (processor_main member_rows visit_rows))) <= 5)%nat.
Proof.
  intros members visits.
  assert (Hk : forall v, accepted members v = barcode_known members v)
    by (intros v; apply accepted_known, load_members_nonempty).
  pose proof (validate_counts members visits) as [H1 H2].
  unfold processor_main. fold members visits.
  destruct (validate_and_group_visits members visits) as [g w]. cbn [fst snd] in *.
  rewrite (filter_ext _ _ Hk) in H1.
  rewrite (filter_ext (fun v => accepted members v && is_walk_in v)
             (fun v => barcode_known members v && is_walk_in v))
    in H2 by (intros v; rewrite Hk; reflexivity).
  rewrite build_summary_total, build_summary_walk_ins.
  split; [|split; [exact H1|split; [exact H2|split]]].
  - unfold write_output.
    destruct (write_rows_some g (sorted str_pair_lt (map fst g))) as [s Hs].
    + intros k Hk'. exact (Permutation_in _ (sorted_perm str_pair_lt _) Hk').
    + rewrite Hs. eexists; reflexivity.
  - rewrite H1, H2. apply filter_andb_le.
  - rewrite build_summary_top. unfold print_top_members, slice_to.
    change (0 <=? 5)%Z with true. cbv iota.
    rewrite length_firstn. change (Z.to_nat 5) with 5%nat. lia.
Qed.

(* ------------------------------------------------------------------ *)
(** ** Further properties: repeated member rows *)

Lemma first_member_some (rows : list MemberRow) (r : MemberRow) :
  In r rows ->
  is_empty (strip (or_empty (mr_member_id r))) = false ->
  is_empty (strip (or_empty (mr_barcode r))) = false ->
  exists m, first_member rows (strip (or_empty (mr_barcode r))) = Some m.
Proof.
  intros Hin Hm Hb. induction rows as [|r' rs IH]; [destruct Hin|].
  cbn [first_member]. destruct Hin as [<-|Hin].
  - rewrite Hm, Hb, String.eqb_refl. eexists; reflexivity.
  - destruct (_ && _ && _); [eexists; reflexivity|apply IH, Hin].
Qed.

Lemma load_members_fold_known (rows : list MemberRow) (acc : Members) :
  (forall r, In r rows ->
   is_empty (strip (or_empty (mr_member_id r))) = false ->
   is_empty (strip (or_empty (mr_barcode r))) = false ->
   Dict.mem String.eqb (strip (or_empty (mr_barcode r))) acc = true) ->
  fold_left load_members_step rows acc = acc.
Proof.
  induction rows as [|r rs IH]; intros H; cbn [fold_left]; [reflexivity|].
  assert (Hs : load_members_step acc r = acc).
  { unfold load_members_step. cbv zeta.
    destruct (is_empty (strip (or_empty (mr_member_id r)))) eqn:Em; [reflexivity|].
    destruct (is_empty (strip (or_empty (mr_barcode r)))) eqn:Eb; [reflexivity|].
    cbn [orb]. rewrite (H r (or_introl eq_refl) Em Eb). reflexivity. }
  rewrite Hs. apply IH. intros r' Hin. apply H. right. exact Hin.
Qed.

(** Loading the member rows twice in a row (the same file concatenated
    with itself) gives the same mapping as loading them once. *)
Theorem load_members_repeat (rows : list MemberRow) :
  load_members (rows ++ rows) = load_members rows.
Proof.
  unfold load_members at 1. rewrite fold_left_app.
  apply load_members_fold_known. intros r Hin Hm Hb.
  destruct (first_member_some rows r Hin Hm Hb) as [m Hf].
  unfold Dict.mem. unfold load_members. rewrite load_members_fold. cbn [Dict.get].
  rewrite Hf. reflexivity.
Qed.
